(** * Contact-form controller: utils.js, classes.js and app.js

    A shallow embedding of the form-submission workflow.  Pure helpers of
    utils.js become functions on lists and records; the two handler classes
    of classes.js become records kept in a [World]; the asynchronous
    workflow [handleFormSubmit] runs in a state-and-exception monad over
    that world, with the network as an oracle. *)

From Stdlib Require Import List Bool PeanoNat NArith Lia String Ascii.
From Stdlib Require Import Floats.SpecFloat.
Import ListNotations.

Local Open Scope N_scope.
Local Open Scope list_scope.

Set Implicit Arguments.
#[local] Set Warnings "-register-all".

(* ================================================================== *)
(** ** JavaScript strings *)

(** A JavaScript string is a sequence of UTF-16 code units. *)
Module JsString.

Definition code_unit := N.
Definition jsstring := list code_unit.

(** Literals of the source are ASCII; [lit] turns one into code units. *)
Fixpoint lit (s : string) : jsstring :=
  match s with
  | EmptyString => []
  | String c r => N_of_ascii c :: lit r
  end.

Fixpoint eqb (a b : jsstring) : bool :=
  match a, b with
  | [], [] => true
  | x :: a', y :: b' => N.eqb x y && eqb a' b'
  | _, _ => false
  end.

(** WhiteSpace and LineTerminator of ECMAScript, the code points that
    [String.prototype.trim] strips.  All of them are in the basic plane,
    so the test on code units is the test on code points. *)
Definition is_white_space (c : code_unit) : bool :=
  (c =? 0x09) || (c =? 0x0A) || (c =? 0x0B) || (c =? 0x0C) || (c =? 0x0D)
  || (c =? 0x20) || (c =? 0xA0) || (c =? 0x1680)
  || ((0x2000 <=? c) && (c <=? 0x200A))
  || (c =? 0x2028) || (c =? 0x2029) || (c =? 0x202F) || (c =? 0x205F)
  || (c =? 0x3000) || (c =? 0xFEFF).

Fixpoint trimStart (s : jsstring) : jsstring :=
  match s with
  | [] => []
  | c :: r => if is_white_space c then trimStart r else s
  end.

Fixpoint trimEnd (s : jsstring) : jsstring :=
  match s with
  | [] => []
  | c :: r =>
      match trimEnd r with
      | [] => if is_white_space c then [] else [c]
      | r' => c :: r'
      end
  end.

(** [s.trim()] *)
Definition trim (s : jsstring) : jsstring := trimEnd (trimStart s).

(** [s.length === 0] *)
Definition is_empty (s : jsstring) : bool :=
  match s with [] => true | _ => false end.

(** [xs.join(sep)] on an array of strings. *)
Fixpoint join (sep : jsstring) (xs : list jsstring) : jsstring :=
  match xs with
  | [] => []
  | [x] => x
  | x :: rest => x ++ sep ++ join sep rest
  end.

(** [xs.includes(x)] on an array of strings. *)
Definition includes (xs : list jsstring) (x : jsstring) : bool :=
  existsb (eqb x) xs.

End JsString.
Import JsString.

(* ================================================================== *)
(** ** Plain objects with string values *)

(** The object [getFormData] builds and [validateSubmission] reads has
    string keys and string values.  It is kept as the list of its own
    properties in the order [Object.entries] yields them: array-index keys
    first, in ascending numeric order, then the other keys in the order of
    their creation.  A key occurs once. *)
Module JsObject.

Definition t := list (jsstring * jsstring).

Definition empty : t := [].

(** [Object.entries(o)] *)
Definition entries (o : t) : list (jsstring * jsstring) := o.

Definition keys (o : t) : list jsstring := map fst o.

(** [o[k]], [None] standing for [undefined]. *)
Fixpoint get (o : t) (k : jsstring) : option jsstring :=
  match o with
  | [] => None
  | (k', v) :: r => if JsString.eqb k k' then Some v else get r k
  end.

Definition digit (c : code_unit) : option N :=
  if (0x30 <=? c) && (c <=? 0x39) then Some (c - 0x30) else None.

Fixpoint digits (acc : N) (s : jsstring) : option N :=
  match s with
  | [] => Some acc
  | c :: r =>
      match digit c with
      | Some d => digits (10 * acc + d) r
      | None => None
      end
  end.

(** A key is an array index when it is the canonical decimal form of an
    integer below 2^32 - 1. *)
Definition array_index (k : jsstring) : option N :=
  match k with
  | [] => None
  | [c] => digit c
  | c :: _ =>
      if c =? 0x30 then None
      else match digits 0 k with
           | Some n => if n <? 2 ^ 32 - 1 then Some n else None
           | None => None
           end
  end.

(** Place of a new array-index key [n]: before the first key that is not
    an array index or is a larger one. *)
Fixpoint insert_index (n : N) (k v : jsstring) (o : t) : t :=
  match o with
  | [] => [(k, v)]
  | (k', v') :: r =>
      match array_index k' with
      | Some m => if m <? n then (k', v') :: insert_index n k v r
                  else (k, v) :: o
      | None => (k, v) :: o
      end
  end.

Fixpoint replace (k v : jsstring) (o : t) : t :=
  match o with
  | [] => []
  | (k', v') :: r =>
      if JsString.eqb k k' then (k', v) :: r else (k', v') :: replace k v r
  end.

(** [o[k] = v] with [v] a string: an existing key keeps its place; a new
    one is created.  Assigning a string to [__proto__] goes to the
    inherited setter, which ignores it. *)
Definition set (o : t) (k v : jsstring) : t :=
  if JsString.eqb k (lit "__proto__") then o
  else
    match get o k with
    | Some _ => replace k v o
    | None =>
        match array_index k with
        | Some n => insert_index n k v o
        | None => o ++ [(k, v)]
        end
    end.

End JsObject.

(* ================================================================== *)
(** ** utils.js: the field transformer and the submission validator *)

(** The three shapes a field object goes through in
    [transformAndValidateFields]: each [map] spreads its argument and adds
    properties. *)
Record RawField := mkRawField {
  raw_name : jsstring;
  raw_value : jsstring;
  raw_required : bool
}.

Record TransformedField := mkTransformedField {
  tf_name : jsstring;
  tf_value : jsstring;
  tf_required : bool;
  tf_isEmpty : bool
}.

Record Field := mkField {
  name : jsstring;
  value : jsstring;
  required : bool;
  isEmpty : bool;
  isValid : bool
}.

Definition transformField (field : RawField) : TransformedField :=
  {| tf_name := raw_name field;
     tf_required := raw_required field;
     tf_value := trim (raw_value field);
     tf_isEmpty := is_empty (trim (raw_value field)) |}.

Definition validateField (field : TransformedField) : Field :=
  {| name := tf_name field;
     value := tf_value field;
     required := tf_required field;
     isEmpty := tf_isEmpty field;
     isValid := negb (tf_isEmpty field) |}.

Definition findEmptyRequiredFields (fields : list Field) : list Field :=
  filter (fun field => isEmpty field && required field) fields.

Definition findFirstError (validationResults : list Field) : option Field :=
  find (fun result => negb (isValid result)) validationResults.

(** [requiredFields] defaults to the empty array; the callers here always
    pass it. *)
Definition transformAndValidateFields
    (formData : JsObject.t) (requiredFields : list jsstring) : list Field :=
  map validateField
    (map transformField
       (map (fun '(name, value) =>
               {| raw_name := name;
                  raw_value := value;
                  raw_required := includes requiredFields name |})
            (JsObject.entries formData))).

Record ValidationOutcome := mkValidationOutcome {
  shouldProceed : bool;
  errors : list jsstring;
  validationResults : list Field
}.

Definition validateSubmission
    (formData : JsObject.t) (requiredFields : list jsstring)
    : ValidationOutcome :=
  let validationResults := transformAndValidateFields formData requiredFields in
  let errors := filter (fun result => negb (isValid result)) validationResults in
  {| shouldProceed := Nat.eqb (List.length errors) 0;
     errors := map name errors;
     validationResults := validationResults |}.

(** [createWorkflowSteps(config)]: [validate] and [reset] of the
    configuration are [None] when absent, and a step is disabled only by an
    explicit [false]. *)
Definition createWorkflowSteps (validate reset : option bool)
    : list (jsstring * bool) :=
  let enabled c := match c with Some false => false | _ => true end in
  [ (lit "validate", enabled validate);
    (lit "show-loading", true);
    (lit "submit", true);
    (lit "handle-response", true);
    (lit "reset", enabled reset) ].

(* ================================================================== *)
(** ** JavaScript values that cross the API boundary *)

(** What [response.json()] yields: a JSON value.  Numbers are IEEE 754
    doubles; an object is the list of its properties, a key occurring
    once. *)
Inductive json :=
| JNull
| JBool (b : bool)
| JNumber (x : spec_float)
| JString (s : jsstring)
| JArray (items : list json)
| JObject (props : list (jsstring * json)).

(** An [Error] object, as thrown by [fetch], [response.json()] or the
    [FormData] constructor.  Being an object, it is truthy. *)
Record js_error := mkError {
  err_name : jsstring;
  err_message : jsstring
}.

(** ToBoolean *)
Definition truthy (v : json) : bool :=
  match v with
  | JNull => false
  | JBool b => b
  | JNumber (S754_zero _) => false
  | JNumber S754_nan => false
  | JNumber _ => true
  | JString s => negb (is_empty s)
  | JArray _ => true
  | JObject _ => true
  end.

Fixpoint get_prop (props : list (jsstring * json)) (k : jsstring)
    : option json :=
  match props with
  | [] => None
  | (k', v) :: r => if JsString.eqb k k' then Some v else get_prop r k
  end.

(** [data?.message], [None] standing for [undefined]: only an object can
    carry the property; no prototype of a JSON value defines it. *)
Definition optional_message (data : json) : option json :=
  match data with
  | JObject props => get_prop props (lit "message")
  | _ => None
  end.

(** [a || b] with [a] possibly [undefined]. *)
Definition or_else (a : option json) (b : json) : json :=
  match a with
  | Some v => if truthy v then v else b
  | None => b
  end.

Record SubmissionResult := mkSubmissionResult {
  status : option N;
  success : bool;
  message : json;
  data : json;
  error : option js_error
}.

(** [status === 200], [None] being [null]. *)
Definition is_200 (status : option N) : bool :=
  match status with
  | Some s => s =? 200
  | None => false
  end.

Definition createResponseObject
    (status : option N) (data : json) (error : option js_error)
    : SubmissionResult :=
  {| status := status;
     success := is_200 status;
     message :=
       or_else (optional_message data)
         (match error with
          | Some _ => JString (lit "Something went wrong!")
          | None => JString (lit "Success")
          end);
     data := data;
     error := error |}.

(* ================================================================== *)
(** ** JSON.stringify on an object of strings *)

Module Json.

Definition hex_digit (n : N) : code_unit :=
  if n <? 10 then 0x30 + n else 0x61 + (n - 10).

(** [\uXXXX], lower-case hexadecimal. *)
Definition unicode_escape (c : code_unit) : jsstring :=
  [0x5C; 0x75;
   hex_digit (c / 4096 mod 16); hex_digit (c / 256 mod 16);
   hex_digit (c / 16 mod 16); hex_digit (c mod 16)].

Definition is_high_surrogate (c : code_unit) : bool :=
  (0xD800 <=? c) && (c <=? 0xDBFF).

Definition is_low_surrogate (c : code_unit) : bool :=
  (0xDC00 <=? c) && (c <=? 0xDFFF).

Definition escape_unit (c : code_unit) : jsstring :=
  if c =? 0x08 then lit "\b"
  else if c =? 0x09 then lit "\t"
  else if c =? 0x0A then lit "\n"
  else if c =? 0x0C then lit "\f"
  else if c =? 0x0D then lit "\r"
  else if c =? 0x22 then [0x5C; 0x22]
  else if c =? 0x5C then [0x5C; 0x5C]
  else if (c <? 0x20) || is_high_surrogate c || is_low_surrogate c
       then unicode_escape c
  else [c].

(** The characters of QuoteJSONString: a surrogate pair is kept, a lone
    surrogate is escaped. *)
Fixpoint quote_units (s : jsstring) : jsstring :=
  match s with
  | [] => []
  | c :: r =>
      match r with
      | d :: r' =>
          if is_high_surrogate c && is_low_surrogate d
          then c :: d :: quote_units r'
          else escape_unit c ++ quote_units r
      | [] => escape_unit c
      end
  end.

Definition quote (s : jsstring) : jsstring :=
  [0x22] ++ quote_units s ++ [0x22].

Definition member (kv : jsstring * jsstring) : jsstring :=
  quote (fst kv) ++ [0x3A] ++ quote (snd kv).

Definition stringify (o : JsObject.t) : jsstring :=
  [0x7B] ++ join [0x2C] (map member (JsObject.entries o)) ++ [0x7D].

End Json.

Record RequestPayload := mkRequestPayload {
  method : jsstring;
  headers : list (jsstring * jsstring);
  body : jsstring
}.

(** [method] is [None] when the argument is left out. *)
Definition createRequestPayload
    (data : JsObject.t) (method : option jsstring) : RequestPayload :=
  {| method := match method with Some m => m | None => lit "POST" end;
     headers := [ (lit "Content-Type", lit "application/json");
                  (lit "Accept", lit "application/json") ];
     body := Json.stringify data |}.

(* ================================================================== *)
(** ** The page: form, result element, timers, network, console *)

(** [DOMTokenList] *)
Module ClassList.

Definition t := list jsstring.

Definition contains (l : t) (cls : jsstring) : bool := includes l cls.

Definition add (cls : jsstring) (l : t) : t :=
  if contains l cls then l else l ++ [cls].

Definition remove (cls : jsstring) (l : t) : t :=
  filter (fun c => negb (JsString.eqb cls c)) l.

End ClassList.

(** A listed text control of the form, enabled and named.  The browser
    decides its validity from its value; [c_constraint] is that decision. *)
Record Control := mkControl {
  c_name : jsstring;
  c_value : jsstring;
  c_default : jsstring;
  c_constraint : jsstring -> bool
}.

Definition control_valid (c : Control) : bool := c_constraint c (c_value c).

(** A [fieldset] of the form: it opens just before control [fs_first] and
    holds the [fs_count] controls from there on.  It carries no [tabindex],
    so that [focus()] on it moves no focus. *)
Record Fieldset := mkFieldset {
  fs_first : nat;
  fs_count : nat
}.

(** The [HTMLFormElement]: its controls and its fieldsets, each in
    document order. *)
Record Form := mkForm {
  controls : list Control;
  fieldsets : list Fieldset;
  form_classList : ClassList.t
}.

(** An element of the form that [:invalid] can match: the control at a
    position among the controls, or the fieldset at a position among the
    fieldsets. *)
Inductive FormElement :=
| ControlElement (i : nat)
| FieldsetElement (j : nat).

(** [form.checkValidity()] *)
Definition checkValidity (f : Form) : bool := forallb control_valid (controls f).

(** A fieldset matches [:invalid] when it holds an invalid control. *)
Definition fieldset_invalid (cs : list Control) (fs : Fieldset) : bool :=
  negb (forallb control_valid (firstn (fs_count fs) (skipn (fs_first fs) cs))).

(** The invalid fieldsets that open just before control [i], from the
    [j]-th fieldset on. *)
Fixpoint invalid_fieldsets_at (cs : list Control) (i j : nat)
    (fss : list Fieldset) : list FormElement :=
  match fss with
  | [] => []
  | fs :: r =>
      if Nat.eqb (fs_first fs) i && fieldset_invalid cs fs
      then FieldsetElement j :: invalid_fieldsets_at cs i (S j) r
      else invalid_fieldsets_at cs i (S j) r
  end.

(** The matches from control [i] on, [rest] being the controls from there:
    a fieldset comes before the controls it holds. *)
Fixpoint invalid_from (f : Form) (i : nat) (rest : list Control)
    : list FormElement :=
  match rest with
  | [] => []
  | c :: r =>
      invalid_fieldsets_at (controls f) i 0 (fieldsets f)
      ++ (if control_valid c then [] else [ControlElement i])
      ++ invalid_from f (S i) r
  end.

(** [form.querySelectorAll(":invalid")], in document order: the invalid
    controls and the fieldsets that hold one. *)
Definition querySelectorAll_invalid (f : Form) : list FormElement :=
  invalid_from f 0 (controls f).

(** [new FormData(form).entries()] *)
Definition FormData_entries (f : Form) : list (jsstring * jsstring) :=
  map (fun c => (c_name c, c_value c)) (controls f).

(** [form.reset()]: every control goes back to its default value. *)
Definition form_reset (f : Form) : Form :=
  {| controls :=
       map (fun c => {| c_name := c_name c;
                        c_value := c_default c;
                        c_default := c_default c;
                        c_constraint := c_constraint c |}) (controls f);
     fieldsets := fieldsets f;
     form_classList := form_classList f |}.

(** The element that shows status messages.  [innerHTML] keeps the value
    assigned to it; the browser converts it to a string and parses that as
    markup, so what it reads back may differ. *)
Record Element := mkElement {
  innerHTML : json;
  display : jsstring;
  classList : ClassList.t
}.

(** [FormHandler]: [resultElement] and [isSubmitting] are set by the
    constructor and by [setResultElement] and read nowhere; they are left
    out. *)
Record FormHandler := mkFormHandler {
  form : option Form
}.

Record Message := mkMessage {
  content : json;
  msg_status : jsstring;
  timestamp : N
}.

Record ResponseHandler := mkResponseHandler {
  resultElement : option Element;
  messageHistory : list Message
}.

(** A pending [setTimeout] of [hideAfter]: its callback is always
    [hide_callback] below. *)
Record Timer := mkTimer {
  set_at : N;
  delay : N
}.

Record Request := mkRequest {
  url : jsstring;
  payload : RequestPayload
}.

(** Calls made on the two handlers, in order.  The source keeps no such
    log; it is kept here so that the workflow's theorems can say which
    operations of its collaborators it invoked. *)
Inductive Call :=
| CallIsValid
| CallFocusInvalidField
| CallAddValidationClass
| CallGetFormData
| CallReset
| CallShowLoading
| CallShowSuccess (m : json)
| CallShowError (m : json)
| CallHideAfter (d : N).

Record ClassConfig := mkClassConfig {
  toRemove : list jsstring;
  toAdd : list jsstring
}.

(** The assignments [displayMessage] makes to the response handler and to
    its element.  They are logged, like the calls, in the order they are
    made; the source keeps no such log. *)
Inductive Write :=
| SetMessageHistory (h : list Message)
| SetInnerHTML (message : json)
| SetDisplay (value : jsstring)
| UpdateClasses (classConfig : ClassConfig).

Record World := mkWorld {
  formHandler : FormHandler;
  responseHandler : ResponseHandler;
  activeElement : option nat;   (* the focused control of the form *)
  clock : N;                    (* [new Date().getTime()] *)
  timers : list Timer;
  requests : list Request;      (* the [fetch] calls issued *)
  console : list (jsstring * js_error);
  calls : list Call;
  writes : list Write
}.

Definition with_formHandler (x : FormHandler) (w : World) : World :=
  mkWorld x (responseHandler w) (activeElement w) (clock w) (timers w)
    (requests w) (console w) (calls w) (writes w).
Definition with_responseHandler (x : ResponseHandler) (w : World) : World :=
  mkWorld (formHandler w) x (activeElement w) (clock w) (timers w)
    (requests w) (console w) (calls w) (writes w).
Definition with_activeElement (x : option nat) (w : World) : World :=
  mkWorld (formHandler w) (responseHandler w) x (clock w) (timers w)
    (requests w) (console w) (calls w) (writes w).
Definition with_clock (x : N) (w : World) : World :=
  mkWorld (formHandler w) (responseHandler w) (activeElement w) x (timers w)
    (requests w) (console w) (calls w) (writes w).
Definition with_timers (x : list Timer) (w : World) : World :=
  mkWorld (formHandler w) (responseHandler w) (activeElement w) (clock w) x
    (requests w) (console w) (calls w) (writes w).
Definition with_requests (x : list Request) (w : World) : World :=
  mkWorld (formHandler w) (responseHandler w) (activeElement w) (clock w)
    (timers w) x (console w) (calls w) (writes w).
Definition with_console (x : list (jsstring * js_error)) (w : World) : World :=
  mkWorld (formHandler w) (responseHandler w) (activeElement w) (clock w)
    (timers w) (requests w) x (calls w) (writes w).
Definition with_calls (x : list Call) (w : World) : World :=
  mkWorld (formHandler w) (responseHandler w) (activeElement w) (clock w)
    (timers w) (requests w) (console w) x (writes w).
Definition with_writes (x : list Write) (w : World) : World :=
  mkWorld (formHandler w) (responseHandler w) (activeElement w) (clock w)
    (timers w) (requests w) (console w) (calls w) x.

(** The server and the wire.  [fetch] either rejects or resolves with a
    response, whose [json()] in turn rejects or resolves; [latency] is the
    time the request takes. *)
Record Response := mkResponse {
  resp_status : N;
  resp_json : js_error + json
}.

Record Network := mkNetwork {
  respond : Request -> js_error + Response;
  latency : Request -> N
}.

(* ================================================================== *)
(** ** Computations: state and exceptions *)

Inductive Completion (A : Type) :=
| Normal (a : A)
| Throw (e : js_error).
Arguments Throw {A} e.

Definition Js (A : Type) := World -> Completion A * World.

Definition ret {A} (a : A) : Js A := fun w => (Normal a, w).

Definition bind {A B} (m : Js A) (k : A -> Js B) : Js B :=
  fun w =>
    match m w with
    | (Normal a, w') => k a w'
    | (Throw e, w') => (Throw e, w')
    end.

Definition throw {A} (e : js_error) : Js A := fun w => (Throw e, w).

Definition try_catch {A} (m : Js A) (handler : js_error -> Js A) : Js A :=
  fun w =>
    match m w with
    | (Normal a, w') => (Normal a, w')
    | (Throw e, w') => handler e w'
    end.

Definition gets {A} (f : World -> A) : Js A := fun w => (Normal (f w), w).

Definition modify (f : World -> World) : Js unit := fun w => (Normal tt, f w).

Declare Scope js_scope.
Delimit Scope js_scope with js.
Notation "x <- c1 ;; c2" := (bind c1 (fun x => c2))
  (at level 61, c1 at next level, right associativity) : js_scope.
Notation "c1 ;; c2" := (bind c1 (fun _ => c2))
  (at level 61, right associativity) : js_scope.
Local Open Scope js_scope.

Definition called (c : Call) : Js unit :=
  modify (fun w => with_calls (calls w ++ [c]) w).

(** The final world and the outcome of a computation. *)
Definition exec {A} (m : Js A) (w : World) : World := snd (m w).
Definition eval {A} (m : Js A) (w : World) : Completion A := fst (m w).

(* ================================================================== *)
(** ** classes.js *)

Definition formDataToObject (formData : list (jsstring * jsstring))
    : JsObject.t :=
  fold_left (fun acc '(key, value) => JsObject.set acc key value)
    formData JsObject.empty.

(** [getInvalidFields(form)], [form] possibly [null]. *)
Definition getInvalidFields (form : option Form) : list FormElement :=
  match form with
  | Some f => querySelectorAll_invalid f
  | None => []
  end.

Definition getClassesToRemove (classList classesToRemove : list jsstring)
    : list jsstring :=
  filter (ClassList.contains classList) classesToRemove.

Module FormHandler.

Definition getForm : Js (option Form) := gets (fun w => form (formHandler w)).

Definition set_form (f : Form) : Js unit :=
  modify (with_formHandler {| form := Some f |}).

(** [this.form && this.form.checkValidity()]: [None] is the [null] form
    itself, which is what [&&] yields then. *)
Definition isValid : Js (option bool) :=
  called CallIsValid ;;
  form <- getForm ;;
  match form with
  | Some f => ret (Some (checkValidity f))
  | None => ret None
  end.

Definition reset : Js unit :=
  called CallReset ;;
  form <- getForm ;;
  match form with
  | Some f =>
      let f' := form_reset f in
      set_form {| controls := controls f';
                  fieldsets := fieldsets f';
                  form_classList :=
                    ClassList.remove (lit "was-validated") (form_classList f') |}
  | None => ret tt
  end.

Definition addValidationClass : Js unit :=
  called CallAddValidationClass ;;
  form <- getForm ;;
  match form with
  | Some f =>
      set_form {| controls := controls f;
                  fieldsets := fieldsets f;
                  form_classList :=
                    ClassList.add (lit "was-validated") (form_classList f) |}
  | None => ret tt
  end.

(** [element.focus()]: a control takes the focus, a fieldset does not. *)
Definition Element_focus (element : FormElement) : Js unit :=
  match element with
  | ControlElement i => modify (with_activeElement (Some i))
  | FieldsetElement _ => ret tt
  end.

(** [find((field) => field)] takes the first element, every element being
    truthy. *)
Definition focusInvalidField : Js unit :=
  called CallFocusInvalidField ;;
  form <- getForm ;;
  match getInvalidFields form with
  | invalidField :: _ => Element_focus invalidField
  | [] => ret tt
  end.

(** [new FormData(null)] throws a [TypeError]. *)
Definition FormData_TypeError : js_error :=
  {| err_name := lit "TypeError";
     err_message :=
       lit "Failed to construct 'FormData': parameter 1 is not of type 'HTMLFormElement'." |}.

Definition getFormData : Js JsObject.t :=
  called CallGetFormData ;;
  form <- getForm ;;
  match form with
  | Some f => ret (formDataToObject (FormData_entries f))
  | None => throw FormData_TypeError
  end.

End FormHandler.

(** [toRemove.forEach(remove)] then [toAdd.forEach(add)]. *)
Definition updateElementClasses
    (classList : ClassList.t) (classConfig : ClassConfig) : ClassList.t :=
  fold_left (fun l cls => ClassList.add cls l) (toAdd classConfig)
    (fold_left (fun l cls => ClassList.remove cls l) (toRemove classConfig)
       classList).

(** Keys every object literal inherits from [Object.prototype]. *)
Definition Object_prototype_keys : list jsstring :=
  map lit
    [ "constructor"; "__defineGetter__"; "__defineSetter__"; "hasOwnProperty";
      "__lookupGetter__"; "__lookupSetter__"; "isPrototypeOf";
      "propertyIsEnumerable"; "toString"; "valueOf"; "__proto__";
      "toLocaleString" ]%string.

(** [classConfigs[status] || classConfigs.error].  An inherited key yields
    a truthy value without [toRemove] and [toAdd], which
    [updateElementClasses] then takes as empty. *)
Definition getClassConfig (status : jsstring) : ClassConfig :=
  let loading :=
    {| toRemove := [lit "text-green-500"; lit "text-red-500"];
       toAdd := [lit "text-gray-500"] |} in
  let success :=
    {| toRemove := [lit "text-gray-500"; lit "text-red-500"];
       toAdd := [lit "text-green-500"] |} in
  let error :=
    {| toRemove := [lit "text-gray-500"; lit "text-green-500"];
       toAdd := [lit "text-red-500"] |} in
  if JsString.eqb status (lit "loading") then loading
  else if JsString.eqb status (lit "success") then success
  else if JsString.eqb status (lit "error") then error
  else if includes Object_prototype_keys status
       then {| toRemove := []; toAdd := [] |}
  else error.

Definition createMessage (content : json) (status : jsstring) : Js Message :=
  now <- gets clock ;;
  ret {| content := content; msg_status := status; timestamp := now |}.

(** The page's elements that carry an [id]. *)
Definition Document := list (jsstring * Element).

(** [document.getElementById(id)], [None] being [null]. *)
Fixpoint getElementById (document : Document) (id : jsstring)
    : option Element :=
  match document with
  | [] => None
  | (id', e) :: r =>
      if JsString.eqb id id' then Some e else getElementById r id
  end.

Module ResponseHandler.

Definition constructor (document : Document) (resultElementId : jsstring)
    : ResponseHandler :=
  {| resultElement := getElementById document resultElementId;
     messageHistory := [] |}.

Definition set_resultElement (e : Element) : Js unit :=
  modify (fun w =>
    with_responseHandler
      {| resultElement := Some e;
         messageHistory := messageHistory (responseHandler w) |} w).

(** The element after the three assignments [displayMessage] makes to it
    once the history is extended.  The message is taken to be one the
    [innerHTML] setter can convert to a string, as every string is; a value
    that cannot be converted (an object with an own [toString] that is not
    a function) would make the assignment throw, which is not modelled. *)
Definition show_in (e : Element) (message : json) (status : jsstring)
    : Element :=
  let e1 := {| innerHTML := message;
               display := display e;
               classList := classList e |} in
  let e2 := {| innerHTML := innerHTML e1;
               display := lit "block";
               classList := classList e1 |} in
  let classConfig := getClassConfig status in
  {| innerHTML := innerHTML e2;
     display := display e2;
     classList := updateElementClasses (classList e2) classConfig |}.

(** What an assignment does to the handler. *)
Definition written (wr : Write) (this : ResponseHandler) : ResponseHandler :=
  match wr, resultElement this with
  | SetMessageHistory h, _ =>
      {| resultElement := resultElement this; messageHistory := h |}
  | SetInnerHTML message, Some e =>
      {| resultElement :=
           Some {| innerHTML := message;
                   display := display e;
                   classList := classList e |};
         messageHistory := messageHistory this |}
  | SetDisplay value, Some e =>
      {| resultElement :=
           Some {| innerHTML := innerHTML e;
                   display := value;
                   classList := classList e |};
         messageHistory := messageHistory this |}
  | UpdateClasses classConfig, Some e =>
      {| resultElement :=
           Some {| innerHTML := innerHTML e;
                   display := display e;
                   classList := updateElementClasses (classList e) classConfig |};
         messageHistory := messageHistory this |}
  | _, None => this
  end.

(** One assignment of [displayMessage]: made, and entered in the log. *)
Definition write (wr : Write) : Js unit :=
  modify (fun w =>
    with_writes (writes w ++ [wr])
      (with_responseHandler (written wr (responseHandler w)) w)).

Definition displayMessage (message : json) (status : jsstring) : Js unit :=
  this <- gets responseHandler ;;
  match resultElement this with
  | None => ret tt
  | Some _ =>
      messageObj <- createMessage message status ;;
      messageHistory <- gets (fun w => messageHistory (responseHandler w)) ;;
      write (SetMessageHistory (messageHistory ++ [messageObj])) ;;
      write (SetInnerHTML message) ;;
      write (SetDisplay (lit "block")) ;;
      let classConfig := getClassConfig status in
      write (UpdateClasses classConfig)
  end.

Definition showLoading : Js unit :=
  called CallShowLoading ;;
  displayMessage (JString (lit "Please wait...")) (lit "loading").

Definition showSuccess (message : json) : Js unit :=
  called (CallShowSuccess message) ;;
  displayMessage message (lit "success").

Definition showError (message : json) : Js unit :=
  called (CallShowError message) ;;
  displayMessage message (lit "error").

(** [status] is [None] when the argument is left out; the empty string is
    falsy as well. *)
Definition getMessageHistory (status : option jsstring) : Js (list json) :=
  this <- gets responseHandler ;;
  ret (map content
         (filter (fun msg =>
                    match status with
                    | None => true
                    | Some s => is_empty s || JsString.eqb (msg_status msg) s
                    end)
                 (messageHistory this))).

Definition getLastMessage : Js (option Message) :=
  this <- gets responseHandler ;;
  ret (last (map Some (messageHistory this)) None).

(** The callback [hideAfter] hands to [setTimeout]. *)
Definition hide_callback : Js unit :=
  this <- gets responseHandler ;;
  match resultElement this with
  | Some e =>
      set_resultElement {| innerHTML := innerHTML e;
                           display := lit "none";
                           classList := classList e |}
  | None => ret tt
  end.

(** [delay] is [None] when the argument is left out. *)
Definition hideAfter (delay : option N) : Js unit :=
  let delay := match delay with Some d => d | None => 5000 end in
  called (CallHideAfter delay) ;;
  now <- gets clock ;;
  modify (fun w => with_timers (timers w ++ [{| set_at := now; delay := delay |}]) w).

End ResponseHandler.

(* ================================================================== *)
(** ** utils.js: the API client and the submission workflow *)

Definition console_error (label : jsstring) (e : js_error) : Js unit :=
  modify (fun w => with_console (console w ++ [(label, e)]) w).

Section Workflow.

Variable net : Network.

(** [await fetch(url, payload)]: the request goes out, time passes, and the
    promise resolves or rejects. *)
Definition fetch (url : jsstring) (payload : RequestPayload) : Js Response :=
  let request := {| url := url; payload := payload |} in
  modify (fun w => with_requests (requests w ++ [request]) w) ;;
  modify (fun w => with_clock (clock w + latency net request) w) ;;
  match respond net request with
  | inr response => ret response
  | inl e => throw e
  end.

(** [await response.json()] *)
Definition Response_json (response : Response) : Js json :=
  match resp_json response with
  | inr v => ret v
  | inl e => throw e
  end.

Definition submitFormToAPI (data : JsObject.t) (url : jsstring)
    : Js SubmissionResult :=
  try_catch
    (let payload := createRequestPayload data None in
     response <- fetch url payload ;;
     json <- Response_json response ;;
     ret (createResponseObject (Some (resp_status response)) json None))
    (fun error =>
       console_error (lit "API Error:") error ;;
       ret (createResponseObject None JNull (Some error))).

(** The [options] argument; a property left out is [None]. *)
Record Options := mkOptions {
  requiredFields : option (list jsstring);
  resetDelay : option N
}.

(** [options = {}] *)
Definition no_options : Options :=
  {| requiredFields := None; resetDelay := None |}.

Definition option_default {A} (d : A) (o : option A) : A :=
  match o with Some a => a | None => d end.

(** [!v] for the value [isValid()] returns. *)
Definition not_valid (v : option bool) : bool :=
  match v with
  | Some b => negb b
  | None => true
  end.

Definition missing_message (errors : list jsstring) : json :=
  JString (lit "Missing required fields: " ++ join (lit ", ") errors).

(** The two handlers are those of the world. *)
Definition handleFormSubmit (apiUrl : jsstring) (options : Options) : Js bool :=
  let requiredFields := option_default [] (requiredFields options) in
  let resetDelay := option_default 5000 (resetDelay options) in
  valid <- FormHandler.isValid ;;
  if not_valid valid then
    FormHandler.focusInvalidField ;;
    FormHandler.addValidationClass ;;
    ret false
  else
    ResponseHandler.showLoading ;;
    formData <- FormHandler.getFormData ;;
    let validation := validateSubmission formData requiredFields in
    if negb (shouldProceed validation) then
      ResponseHandler.showError (missing_message (errors validation)) ;;
      ResponseHandler.hideAfter (Some resetDelay) ;;
      ret false
    else
      result <- submitFormToAPI formData apiUrl ;;
      (if success result
       then ResponseHandler.showSuccess (message result)
       else ResponseHandler.showError (message result)) ;;
      FormHandler.reset ;;
      ResponseHandler.hideAfter (Some resetDelay) ;;
      ret (success result).

(** app.js: the [submit] listener, the outermost safety net. *)
Definition on_submit (apiUrl : jsstring) : Js unit :=
  try_catch
    (handleFormSubmit apiUrl no_options ;; ret tt)
    (fun error =>
       console_error (lit "Submission error:") error ;;
       ResponseHandler.showError (JString (lit "An unexpected error occurred")) ;;
       ResponseHandler.hideAfter (Some 5000)).

End Workflow.

(* ================================================================== *)
(** ** Vocabulary of the properties *)

(** A string is settled at the front when it is empty or starts with a
    character that [trim] keeps. *)
Definition front_settled (s : jsstring) : bool :=
  match s with
  | [] => true
  | c :: _ => negb (is_white_space c)
  end.

(** One entry through the three [map]s of [transformAndValidateFields]. *)
Definition toField (requiredFields : list jsstring)
    (entry : jsstring * jsstring) : Field :=
  {| name := fst entry;
     value := trim (snd entry);
     required := includes requiredFields (fst entry);
     isEmpty := is_empty (trim (snd entry));
     isValid := negb (is_empty (trim (snd entry))) |}.

(** The entry's value is blank: nothing is left of it after [trim]. *)
Definition blank (entry : jsstring * jsstring) : bool :=
  is_empty (trim (snd entry)).

(** The condition of the specification's testable property: every name of
    the required list maps, in the mapping, to a value that is not blank. *)
Definition required_all_nonblank
    (M : JsObject.t) (R : list jsstring) : bool :=
  forallb (fun r =>
             match JsObject.get M r with
             | Some v => negb (is_empty (trim v))
             | None => false
             end) R.

(** Every value of the mapping is already trimmed and non-empty. *)
Definition trimmed_nonempty (M : JsObject.t) : bool :=
  forallb (fun entry =>
             JsString.eqb (trim (snd entry)) (snd entry)
             && negb (is_empty (snd entry)))
          (JsObject.entries M).

(** The name-to-value pairs of a sequence of fields. *)
Definition name_value_pairs (fields : list Field) : JsObject.t :=
  map (fun f => (name f, value f)) fields.

(** A field without its [required] flag. *)
Definition without_required (f : Field) : jsstring * jsstring * bool * bool :=
  (name f, value f, isEmpty f, isValid f).


(** The request [submitFormToAPI(data, url)] issues. *)
Definition api_request (data : JsObject.t) (url : jsstring) : Request :=
  {| url := url; payload := createRequestPayload data None |}.

(** The world once that request has been issued and answered. *)
Definition after_fetch (net : Network) (request : Request) (w : World) : World :=
  with_clock (clock w + latency net request)
    (with_requests (requests w ++ [request]) w).

(** A page to try the workflow on: a form with a constrained [email] and a
    free [message], and a result element. *)
Definition nonblank_constraint (v : jsstring) : bool := negb (is_empty (trim v)).

Definition sample_form (email message : jsstring) : Form :=
  {| controls :=
       [ {| c_name := lit "email"; c_value := email; c_default := [];
            c_constraint := nonblank_constraint |};
         {| c_name := lit "message"; c_value := message; c_default := [];
            c_constraint := fun _ => true |} ];
     fieldsets := [];
     form_classList := [lit "contact-form"] |}.

Definition sample_element : Element :=
  {| innerHTML := JString []; display := lit "none"; classList := [] |}.

Definition sample_world (form : option Form) (element : option Element) : World :=
  {| formHandler := {| form := form |};
     responseHandler := {| resultElement := element; messageHistory := [] |};
     activeElement := None;
     clock := 1000;
     timers := [];
     requests := [];
     console := [];
     calls := [];
     writes := [] |}.

Definition sample_url : jsstring := lit "https://api.web3forms.com/submit".

(** A server that answers every request with the given status and body
    after 40 ms. *)
Definition answering (s : N) (b : json) : Network :=
  {| respond := fun _ => inr {| resp_status := s; resp_json := inr b |};
     latency := fun _ => 40 |}.

Definition sample_error : js_error :=
  {| err_name := lit "TypeError"; err_message := lit "Failed to fetch" |}.

Definition sample_syntax_error : js_error :=
  {| err_name := lit "SyntaxError"; err_message := lit "Unexpected token" |}.

(** A network that is down, and a server whose body is not JSON. *)
Definition unreachable : Network :=
  {| respond := fun _ => inl sample_error; latency := fun _ => 40 |}.

Definition garbled (s : N) : Network :=
  {| respond := fun _ =>
       inr {| resp_status := s; resp_json := inl sample_syntax_error |};
     latency := fun _ => 40 |}.


(** The world with one more call on record. *)
Definition logged (c : Call) (w : World) : World :=
  with_calls (calls w ++ [c]) w.

(** A response handler after [displayMessage(message, status)] at time
    [now]. *)
Definition displayed (message : json) (status : jsstring) (now : N)
    (rh : ResponseHandler) : ResponseHandler :=
  match resultElement rh with
  | None => rh
  | Some e =>
      {| resultElement := Some (ResponseHandler.show_in e message status);
         messageHistory :=
           messageHistory rh
           ++ [{| content := message; msg_status := status; timestamp := now |}] |}
  end.

(** The assignments [displayMessage(message, status)] makes in a world. *)
Definition display_writes (message : json) (status : jsstring) (w : World)
    : list Write :=
  match resultElement (responseHandler w) with
  | Some _ =>
      [ SetMessageHistory
          (messageHistory (responseHandler w)
           ++ [{| content := message; msg_status := status;
                  timestamp := clock w |}]);
        SetInnerHTML message;
        SetDisplay (lit "block");
        UpdateClasses (getClassConfig status) ]
  | None => []
  end.

Definition display_in (message : json) (status : jsstring) (w : World) : World :=
  with_writes
    match display_writes message status w with
    | [] => writes w
    | made => writes w ++ made
    end
    (with_responseHandler
       (displayed message status (clock w) (responseHandler w)) w).

(** A form marked as one whose validation was attempted. *)
Definition was_validated (f : Form) : Form :=
  {| controls := controls f;
     fieldsets := fieldsets f;
     form_classList := ClassList.add (lit "was-validated") (form_classList f) |}.

(** A form after [FormHandler.reset()]. *)
Definition cleared (f : Form) : Form :=
  {| controls := controls (form_reset f);
     fieldsets := fieldsets (form_reset f);
     form_classList :=
       ClassList.remove (lit "was-validated") (form_classList (form_reset f)) |}.

(** The world after [hideAfter(d)]. *)
Definition hide_scheduled (d : N) (w : World) : World :=
  with_timers (timers w ++ [{| set_at := clock w; delay := d |}]) w.

(** Control [i] is the first one of the form that is invalid. *)
Definition first_invalid (f : Form) (i : nat) : Prop :=
  (exists c, nth_error (controls f) i = Some c /\ control_valid c = false)
  /\ forall j c, (j < i)%nat ->
       nth_error (controls f) j = Some c -> control_valid c = true.


(** The result [submitFormToAPI(data, url)] settles with on a given
    network, and the world it leaves. *)
Definition api_result (net : Network) (data : JsObject.t) (url : jsstring)
    : SubmissionResult :=
  match respond net (api_request data url) with
  | inl e => createResponseObject None JNull (Some e)
  | inr r =>
      match resp_json r with
      | inl e => createResponseObject None JNull (Some e)
      | inr b => createResponseObject (Some (resp_status r)) b None
      end
  end.

Definition after_submit (net : Network) (data : JsObject.t) (url : jsstring)
    (w : World) : World :=
  let w1 := after_fetch net (api_request data url) w in
  match error (api_result net data url) with
  | Some e => with_console (console w1 ++ [(lit "API Error:", e)]) w1
  | None => w1
  end.

(** The call by which the workflow shows a result. *)
Definition result_call (result : SubmissionResult) : Call :=
  if success result then CallShowSuccess (message result)
  else CallShowError (message result).

Definition result_kind (result : SubmissionResult) : jsstring :=
  if success result then lit "success" else lit "error".

Definition loading_text : json := JString (lit "Please wait...").


(** The message history of the world's response handler. *)
Definition history (w : World) : list Message :=
  messageHistory (responseHandler w).

(** Everything that can happen to a page: a call of a method of one of the
    two handlers, the firing of a timer of [hideAfter], a call of the API
    client, a run of the workflow, a [submit] event. *)
Inductive Operation :=
| DoDisplayMessage (message : json) (status : jsstring)
| DoShowLoading
| DoShowSuccess (message : json)
| DoShowError (message : json)
| DoGetMessageHistory (status : option jsstring)
| DoGetLastMessage
| DoHideAfter (delay : option N)
| TimerFires
| DoIsValid
| DoReset
| DoAddValidationClass
| DoFocusInvalidField
| DoGetFormData
| DoSubmitFormToAPI (data : JsObject.t) (url : jsstring)
| DoHandleFormSubmit (apiUrl : jsstring) (options : Options)
| SubmitEvent (apiUrl : jsstring).

Definition perform (net : Network) (op : Operation) (w : World) : World :=
  match op with
  | DoDisplayMessage m s => exec (ResponseHandler.displayMessage m s) w
  | DoShowLoading => exec ResponseHandler.showLoading w
  | DoShowSuccess m => exec (ResponseHandler.showSuccess m) w
  | DoShowError m => exec (ResponseHandler.showError m) w
  | DoGetMessageHistory s => exec (ResponseHandler.getMessageHistory s) w
  | DoGetLastMessage => exec ResponseHandler.getLastMessage w
  | DoHideAfter d => exec (ResponseHandler.hideAfter d) w
  | TimerFires => exec ResponseHandler.hide_callback w
  | DoIsValid => exec FormHandler.isValid w
  | DoReset => exec FormHandler.reset w
  | DoAddValidationClass => exec FormHandler.addValidationClass w
  | DoFocusInvalidField => exec FormHandler.focusInvalidField w
  | DoGetFormData => exec FormHandler.getFormData w
  | DoSubmitFormToAPI d u => exec (submitFormToAPI net d u) w
  | DoHandleFormSubmit u o => exec (handleFormSubmit net u o) w
  | SubmitEvent u => exec (on_submit net u) w
  end.

Definition perform_all (net : Network) (ops : list Operation) (w : World)
    : World :=
  fold_left (fun w op => perform net op w) ops w.

(** A computation only ever extends the history at its end. *)
Definition grows {A} (m : Js A) : Prop :=
  forall w, exists added, history (exec m w) = history w ++ added.


(* ================================================================== *)
(** ** More of utils.js *)

(** [validateForm(form)]: [!!(form && form.checkValidity())]. *)
Definition validateForm (form : option Form) : bool :=
  match form with
  | Some f => checkValidity f
  | None => false
  end.

(** [{ ...acc, [key]: value }]: the copy has the properties of [acc] in
    their order, and the computed key defines an own property whatever its
    name: an existing key keeps its place, a new one is created. *)
Definition define_property (o : JsObject.t) (k v : jsstring) : JsObject.t :=
  match JsObject.get o k with
  | Some _ => JsObject.replace k v o
  | None =>
      match JsObject.array_index k with
      | Some n => JsObject.insert_index n k v o
      | None => o ++ [(k, v)]
      end
  end.

Definition formDataToJSON (formData : list (jsstring * jsstring))
    : JsObject.t :=
  fold_left (fun acc '(key, value) => define_property acc key value)
    formData JsObject.empty.

(** ** More vocabulary *)

Definition all_white_space (s : jsstring) : bool := forallb is_white_space s.

(** The value of the last entry under key [k], if any. *)
Definition last_value (es : list (jsstring * jsstring)) (k : jsstring)
    : option jsstring :=
  fold_left (fun acc '(k', v) => if JsString.eqb k k' then Some v else acc)
    es None.

Definition proto_key : jsstring := lit "__proto__".

Definition is_index (entry : jsstring * jsstring) : bool :=
  match JsObject.array_index (fst entry) with
  | Some _ => true
  | None => false
  end.

(** Array-index keys come first, in ascending order from [lo] on, and no
    array-index key follows a key that is not one. *)
Fixpoint index_first (lo : N) (o : JsObject.t) : bool :=
  match o with
  | [] => true
  | (k, v) :: r =>
      match JsObject.array_index k with
      | Some m => (lo <=? m) && index_first m r
      | None => forallb (fun entry => negb (is_index entry)) r
      end
  end.


(** An object as JavaScript keeps it: no key twice, array-index keys
    first and in ascending order. *)
Definition well_formed_keys (o : JsObject.t) : Prop :=
  NoDup (JsObject.keys o) /\ index_first 0 o = true.


(** The world when the workflow has found the form valid, shown the
    loading message and read the form. *)
Definition loading_shown (w : World) : World :=
  logged CallGetFormData
    (display_in loading_text (lit "loading")
       (logged CallShowLoading (logged CallIsValid w))).

(** The world a run leaves when [isValid()] is falsy. *)
Definition world_invalid (w : World) : World :=
  with_formHandler
    {| form := option_map was_validated (form (formHandler w)) |}
    (logged CallAddValidationClass
       match getInvalidFields (form (formHandler w)) with
       | ControlElement i :: _ =>
           with_activeElement (Some i)
             (logged CallFocusInvalidField (logged CallIsValid w))
       | _ => logged CallFocusInvalidField (logged CallIsValid w)
       end).

(** The world a run leaves when the validator finds blank fields. *)
Definition world_blank (d : N) (text : json) (w : World) : World :=
  hide_scheduled d
    (logged (CallHideAfter d)
       (display_in text (lit "error")
          (logged (CallShowError text) (loading_shown w)))).

(** The world a run leaves when it has called the API. *)
Definition world_submitted (net : Network) (u : jsstring) (d : N)
    (formData : JsObject.t) (w : World) : World :=
  let r := api_result net formData u in
  let shown :=
    display_in (message r) (result_kind r)
      (logged (result_call r) (after_submit net formData u (loading_shown w))) in
  hide_scheduled d
    (logged (CallHideAfter d)
       (with_formHandler
          {| form := option_map cleared (form (formHandler shown)) |}
          (logged CallReset shown))).

(** What a run of the workflow returns and the world it leaves, by the
    three ways it can go. *)
Definition run_outcome (net : Network) (u : jsstring) (opts : Options)
    (w : World) : bool * World :=
  let R := option_default [] (requiredFields opts) in
  let d := option_default 5000 (resetDelay opts) in
  match form (formHandler w) with
  | Some f =>
      if checkValidity f then
        let formData := formDataToObject (FormData_entries f) in
        let validation := validateSubmission formData R in
        if shouldProceed validation
        then (success (api_result net formData u),
              world_submitted net u d formData w)
        else (false, world_blank d (missing_message (errors validation)) w)
      else (false, world_invalid w)
  | None => (false, world_invalid w)
  end.


Definition gray : jsstring := lit "text-gray-500".
Definition green : jsstring := lit "text-green-500".
Definition red : jsstring := lit "text-red-500".

(** The class list after [displayMessage] with the given status. *)
Definition recoloured (status : jsstring) (l : ClassList.t) : ClassList.t :=
  updateElementClasses l (getClassConfig status).

(** [status] selects a message: [!status || msg.status === status]. *)
Definition selects (status : option jsstring) (msg_status : jsstring) : bool :=
  match status with
  | None => true
  | Some s => is_empty s || JsString.eqb msg_status s
  end.


(** A computation only ever extends the list [proj] reads off the world. *)
Definition appends {A B} (proj : World -> list B) (m : Js A) : Prop :=
  forall w, exists added, proj (exec m w) = proj w ++ added.


(** The sample form with its two controls in one fieldset. *)
Definition fieldset_form (email message : jsstring) : Form :=
  {| controls := controls (sample_form email message);
     fieldsets := [{| fs_first := 0; fs_count := 2 |}];
     form_classList := form_classList (sample_form email message) |}.


(** The missing required field names, in the words of the specification:
    the names of the outcome's fields that are required and empty, in the
    outcome's order. *)
Definition missing_required (outcome : ValidationOutcome) : list jsstring :=
  map name
    (filter (fun f => required f && isEmpty f) (validationResults outcome)).

(** Whether a class list has a class. *)
Definition has_class (l : ClassList.t) (c : jsstring) : bool :=
  if in_dec (list_eq_dec N.eq_dec) c l then true else false.


(* ================================================================== *)
(** * Properties *)

(** ** Strings *)

Lemma jsstring_eqb_eq (a b : jsstring) : JsString.eqb a b = true <-> a = b.
Proof.
  revert b; induction a as [|x a IH]; intros [|y b]; simpl;
    try (split; [discriminate | discriminate]); try tauto.
  rewrite andb_true_iff, N.eqb_eq, IH.
  split; [intros [-> ->]; reflexivity | intros [= -> ->]; auto].
Qed.

Lemma jsstring_eqb_refl (a : jsstring) : JsString.eqb a a = true.
Proof. apply jsstring_eqb_eq; reflexivity. Qed.

Lemma trimStart_settled (s : jsstring) : front_settled (trimStart s) = true.
Proof.
  induction s as [|c r IH]; simpl; auto.
  destruct (is_white_space c) eqn:E; simpl; auto.
  rewrite E; reflexivity.
Qed.

Lemma trimStart_fixed (s : jsstring) :
  front_settled s = true -> trimStart s = s.
Proof.
  destruct s as [|c r]; simpl; auto.
  destruct (is_white_space c); simpl; [discriminate | reflexivity].
Qed.

Lemma trimEnd_settled (s : jsstring) :
  front_settled s = true -> front_settled (trimEnd s) = true.
Proof.
  destruct s as [|c r]; simpl; auto.
  intros H. destruct (trimEnd r); simpl; auto.
  destruct (is_white_space c) eqn:W; simpl in *; auto.
  rewrite W; reflexivity.
Qed.

Lemma trimEnd_idempotent (s : jsstring) : trimEnd (trimEnd s) = trimEnd s.
Proof.
  induction s as [|c r IH]; simpl; auto.
  destruct (trimEnd r) as [|d r'] eqn:E.
  - destruct (is_white_space c) eqn:W; simpl; auto. rewrite W; reflexivity.
  - change (trimEnd (c :: d :: r')) with
      (match trimEnd (d :: r') with
       | [] => if is_white_space c then [] else [c]
       | x :: l => c :: x :: l
       end).
    rewrite IH. reflexivity.
Qed.

Lemma trim_idempotent (s : jsstring) : trim (trim s) = trim s.
Proof.
  unfold trim.
  rewrite (trimStart_fixed (trimEnd (trimStart s))).
  - apply trimEnd_idempotent.
  - apply trimEnd_settled, trimStart_settled.
Qed.

Lemma includes_In (xs : list jsstring) (x : jsstring) :
  includes xs x = true <-> In x xs.
Proof.
  unfold includes. rewrite existsb_exists. split.
  - intros (y & Hy & E). apply jsstring_eqb_eq in E. subst; auto.
  - intros H. exists x. split; auto using jsstring_eqb_refl.
Qed.

(** ** The field transformer and the submission validator *)

Lemma transformAndValidateFields_map (M : JsObject.t) (R : list jsstring) :
  transformAndValidateFields M R = map (toField R) (JsObject.entries M).
Proof.
  unfold transformAndValidateFields. rewrite !map_map.
  apply map_ext. intros [k v]. reflexivity.
Qed.

Lemma errors_blank_keys (M : JsObject.t) (R : list jsstring) :
  errors (validateSubmission M R)
  = map fst (filter blank (JsObject.entries M)).
Proof.
  unfold validateSubmission; simpl.
  rewrite transformAndValidateFields_map.
  unfold JsObject.entries.
  induction M as [|[k v] M IH]; simpl; auto.
  unfold blank at 1; simpl.
  destruct (is_empty (trim v)); simpl; rewrite IH; reflexivity.
Qed.

Lemma length_zero_forallb {A} (p : A -> bool) (l : list A) :
  Nat.eqb (List.length (filter p l)) 0 = forallb (fun x => negb (p x)) l.
Proof.
  induction l as [|a l IH]; simpl; auto.
  destruct (p a); simpl; auto.
Qed.

Lemma shouldProceed_no_blank (M : JsObject.t) (R : list jsstring) :
  shouldProceed (validateSubmission M R)
  = forallb (fun entry => negb (blank entry)) (JsObject.entries M).
Proof.
  unfold validateSubmission; simpl.
  rewrite transformAndValidateFields_map, length_zero_forallb.
  unfold JsObject.entries.
  induction M as [|[k v] M IH]; simpl; auto.
  rewrite IH, negb_involutive. reflexivity.
Qed.

Lemma toField_pairs (R : list jsstring) (M : JsObject.t) :
  name_value_pairs (map (toField R) M)
  = map (fun entry => (fst entry, trim (snd entry))) M.
Proof.
  unfold name_value_pairs. rewrite map_map. reflexivity.
Qed.

(** Transforming the pairs of the fields again gives the same fields,
    whatever the input. *)
Lemma retransform_same (M : JsObject.t) (R : list jsstring) :
  transformAndValidateFields
    (name_value_pairs (transformAndValidateFields M R)) R
  = transformAndValidateFields M R.
Proof.
  rewrite (transformAndValidateFields_map M), toField_pairs.
  rewrite transformAndValidateFields_map.
  unfold JsObject.entries. rewrite map_map.
  apply map_ext. intros [k v]. unfold toField; simpl.
  rewrite trim_idempotent. reflexivity.
Qed.

Lemma trimmed_pairs_same (M : JsObject.t) (R : list jsstring) :
  trimmed_nonempty M = true ->
  name_value_pairs (transformAndValidateFields M R) = JsObject.entries M.
Proof.
  rewrite transformAndValidateFields_map, toField_pairs.
  unfold trimmed_nonempty, JsObject.entries.
  induction M as [|[k v] M IH]; simpl; auto.
  rewrite !andb_true_iff. intros [[E _] H].
  apply jsstring_eqb_eq in E. simpl in E. rewrite E, IH; auto.
Qed.

Lemma trimmed_fields_valid (M : JsObject.t) (R : list jsstring) :
  trimmed_nonempty M = true ->
  forallb isValid (transformAndValidateFields M R) = true.
Proof.
  rewrite transformAndValidateFields_map.
  unfold trimmed_nonempty, JsObject.entries.
  induction M as [|[k v] M IH]; simpl; auto.
  rewrite !andb_true_iff. intros [[E N] H].
  apply jsstring_eqb_eq in E. simpl in *. rewrite E. auto.
Qed.

Lemma errors_are_keys (M : JsObject.t) (R : list jsstring) :
  incl (errors (validateSubmission M R)) (JsObject.keys M).
Proof.
  rewrite errors_blank_keys. unfold JsObject.keys, JsObject.entries.
  intros k H. apply in_map_iff in H. destruct H as (e & <- & He).
  apply filter_In in He. apply in_map. tauto.
Qed.

(** C1, as amended: for every raw entry mapping M and every list of
    required names R, [validateSubmission(M, R).shouldProceed] is true if
    and only if every key of M, whether or not it is in R, maps to a value
    that is non-blank after trimming; the errors are the keys of the blank
    entries, in the mapping's order. *)
Theorem shouldProceed_iff_no_blank_entry
    (M : JsObject.t) (R : list jsstring) :
  shouldProceed (validateSubmission M R)
  = forallb (fun entry => negb (is_empty (trim (snd entry))))
      (JsObject.entries M)
  /\ errors (validateSubmission M R)
     = map fst (filter (fun entry => is_empty (trim (snd entry)))
                  (JsObject.entries M)).
Proof.
  split; [apply shouldProceed_no_blank | apply errors_blank_keys].
Qed.

(** C1 as the specification states it fails in both directions: a required
    name that the mapping lacks does not stop the submission, and a blank
    value under a name that is not required does. *)
Lemma shouldProceed_ignores_required_list :
  (shouldProceed (validateSubmission [] [lit "email"]) = true
   /\ required_all_nonblank [] [lit "email"] = false)
  /\ (shouldProceed (validateSubmission [(lit "note", lit "  ")] []) = false
      /\ required_all_nonblank [(lit "note", lit "  ")] [] = true).
Proof. repeat split. Qed.

(** C8: [transformAndValidateFields] produces one field per key of the
    input mapping, in the mapping's iteration order; and for an input whose
    values are all already trimmed and non-empty, transforming the
    name-to-value pairs of the result again yields identical fields (the
    pairs being the input's own entries, and every field valid). *)
Theorem transform_keeps_order_and_is_idempotent
    (M : JsObject.t) (R : list jsstring) :
  map name (transformAndValidateFields M R) = JsObject.keys M
  /\ List.length (transformAndValidateFields M R)
     = List.length (JsObject.entries M)
  /\ (trimmed_nonempty M = true ->
      transformAndValidateFields
        (name_value_pairs (transformAndValidateFields M R)) R
      = transformAndValidateFields M R
      /\ name_value_pairs (transformAndValidateFields M R)
         = JsObject.entries M
      /\ forallb isValid (transformAndValidateFields M R) = true).
Proof.
  repeat split.
  - rewrite transformAndValidateFields_map, map_map. reflexivity.
  - rewrite transformAndValidateFields_map. apply length_map.
  - apply retransform_same.
  - apply trimmed_pairs_same; assumption.
  - apply trimmed_fields_valid; assumption.
Qed.

Lemma transform_keeps_order_and_is_idempotent_witness :
  let M := [(lit "email", lit "a@b.com"); (lit "message", lit "hi there")] in
  let R := [lit "email"] in
  trimmed_nonempty M = true
  /\ transformAndValidateFields
       (name_value_pairs (transformAndValidateFields M R)) R
     = transformAndValidateFields M R.
Proof.
  intros M R. split.
  - reflexivity.
  - apply (proj2 (proj2 (transform_keeps_order_and_is_idempotent M R))).
    reflexivity.
Defined.

(** C9: for every raw entry mapping M and any two required-field lists R
    and R', [validateSubmission(M, R)] and [validateSubmission(M, R')] have
    equal [shouldProceed] and equal [errors], and their fields differ at
    most in the [required] flag; so a blank field of M that is not required
    blocks the submission, while a required name absent from M never
    appears in [errors]. *)
Theorem required_list_only_labels
    (M : JsObject.t) (R R' : list jsstring) :
  shouldProceed (validateSubmission M R)
  = shouldProceed (validateSubmission M R')
  /\ errors (validateSubmission M R) = errors (validateSubmission M R')
  /\ map without_required (validationResults (validateSubmission M R))
     = map without_required (validationResults (validateSubmission M R'))
  /\ (forall k v,
        In (k, v) (JsObject.entries M) -> ~ In k R ->
        is_empty (trim v) = true ->
        shouldProceed (validateSubmission M R) = false
        /\ In k (errors (validateSubmission M R)))
  /\ (forall k,
        In k R -> ~ In k (JsObject.keys M) ->
        ~ In k (errors (validateSubmission M R))).
Proof.
  split; [|split; [|split; [|split]]].
  - rewrite !shouldProceed_no_blank. reflexivity.
  - rewrite !errors_blank_keys. reflexivity.
  - unfold validateSubmission; simpl.
    rewrite !transformAndValidateFields_map, !map_map. reflexivity.
  - intros k v Hin _ Hblank. split.
    + rewrite shouldProceed_no_blank.
      apply not_true_is_false. intros Hall.
      rewrite forallb_forall in Hall. specialize (Hall _ Hin).
      unfold blank in Hall; simpl in Hall. rewrite Hblank in Hall.
      discriminate.
    + rewrite errors_blank_keys.
      change k with (fst (k, v)). apply in_map.
      apply filter_In. split; auto.
  - intros k _ Habsent Herr. apply Habsent.
    exact (errors_are_keys M R k Herr).
Qed.

Lemma required_list_only_labels_witness :
  let M := [(lit "note", lit "  ")] in
  let R := [lit "email"] in
  (shouldProceed (validateSubmission M R) = false
   /\ In (lit "note") (errors (validateSubmission M R)))
  /\ ~ In (lit "email") (errors (validateSubmission M R)).
Proof.
  intros M R.
  destruct (required_list_only_labels M R []) as (_ & _ & _ & Hblank & Habsent).
  split.
  - apply (Hblank (lit "note") (lit "  ")).
    + left; reflexivity.
    + simpl. intros [E | []]. discriminate E.
    + reflexivity.
  - apply Habsent.
    + left; reflexivity.
    + simpl. intros [E | []]. discriminate E.
Defined.

(** ** The API client *)

Lemma bind_normal {A B} (m : Js A) (k : A -> Js B) (w w' : World) (a : A) :
  m w = (Normal a, w') -> bind m k w = k a w'.
Proof. unfold bind. intros ->. reflexivity. Qed.
Arguments bind_normal {A B m} k {w w' a} _.

Lemma fetch_resolves (net : Network) (u : jsstring) (p : RequestPayload)
    (w : World) (r : Response) :
  respond net {| url := u; payload := p |} = inr r ->
  fetch net u p w = (Normal r, after_fetch net {| url := u; payload := p |} w).
Proof.
  intros H. unfold fetch, bind, modify. rewrite H. reflexivity.
Qed.

Lemma fetch_rejects (net : Network) (u : jsstring) (p : RequestPayload)
    (w : World) (e : js_error) :
  respond net {| url := u; payload := p |} = inl e ->
  fetch net u p w = (Throw e, after_fetch net {| url := u; payload := p |} w).
Proof.
  intros H. unfold fetch, bind, modify. rewrite H. reflexivity.
Qed.

Lemma submitFormToAPI_completed_any
    (net : Network) (data : JsObject.t) (u : jsstring) (w : World)
    (r : Response) (b : json) :
  respond net (api_request data u) = inr r ->
  resp_json r = inr b ->
  submitFormToAPI net data u w
  = (Normal (createResponseObject (Some (resp_status r)) b None),
     after_fetch net (api_request data u) w).
Proof.
  intros Hr Hb. unfold submitFormToAPI, try_catch.
  rewrite (bind_normal _ (fetch_resolves net u _ w Hr)).
  unfold Response_json. rewrite Hb. reflexivity.
Qed.

Lemma submitFormToAPI_failed_any
    (net : Network) (data : JsObject.t) (u : jsstring) (w : World)
    (e : js_error) :
  respond net (api_request data u) = inl e
  \/ (exists r, respond net (api_request data u) = inr r
                /\ resp_json r = inl e) ->
  submitFormToAPI net data u w
  = (Normal (createResponseObject None JNull (Some e)),
     with_console (console w ++ [(lit "API Error:", e)])
       (after_fetch net (api_request data u) w)).
Proof.
  intros [Hr | (r & Hr & Hb)]; unfold submitFormToAPI, try_catch.
  - unfold bind at 1. rewrite (fetch_rejects net u _ w Hr). reflexivity.
  - rewrite (bind_normal _ (fetch_resolves net u _ w Hr)).
    unfold Response_json. rewrite Hb. reflexivity.
Qed.

(** C3, as amended: for every HTTP request that completes with status s
    and a response body that parses as the JSON value b, [submitFormToAPI]
    returns a result with status s, success true iff s equals 200, data b,
    error null, and message equal to [b.message] when b is an object whose
    [message] property is truthy, and "Success" otherwise; one request has
    gone out. *)
Theorem submitFormToAPI_completed
    (net : Network) (data : JsObject.t) (u : jsstring) (w : World)
    (r : Response) (b : json) :
  respond net (api_request data u) = inr r ->
  resp_json r = inr b ->
  submitFormToAPI net data u w
  = (Normal {| status := Some (resp_status r);
               success := (resp_status r =? 200);
               message :=
                 match optional_message b with
                 | Some m => if truthy m then m else JString (lit "Success")
                 | None => JString (lit "Success")
                 end;
               data := b;
               error := None |},
     after_fetch net (api_request data u) w).
Proof.
  intros Hr Hb.
  rewrite (submitFormToAPI_completed_any net data u w Hr Hb). reflexivity.
Qed.

Lemma submitFormToAPI_completed_witness :
  let b := JObject [(lit "message", JString (lit "ok"))] in
  eval (submitFormToAPI (answering 200 b) [(lit "email", lit "a@b.com")]
          sample_url)
       (sample_world None None)
  = Normal {| status := Some 200; success := true;
              message := JString (lit "ok"); data := b; error := None |}.
Proof.
  intros b. unfold eval.
  rewrite (@submitFormToAPI_completed (answering 200 b) _ sample_url
             (sample_world None None)
             {| resp_status := 200; resp_json := inr b |} b);
    reflexivity.
Defined.

(** C3 as the specification states it fails where the body has a [message]
    property that is falsy: the empty string gives way to "Success". *)
Lemma submitFormToAPI_falsy_message :
  let b := JObject [(lit "message", JString [])] in
  optional_message b = Some (JString [])
  /\ eval (submitFormToAPI (answering 200 b) [] sample_url)
          (sample_world None None)
     = Normal {| status := Some 200; success := true;
                 message := JString (lit "Success"); data := b;
                 error := None |}
  /\ JString (lit "Success") <> JString [].
Proof. repeat split. discriminate. Qed.

(** C4: for every failure of the network request or of parsing the
    response body, [submitFormToAPI] does not throw: it returns a result
    with status null, success false, message "Something went wrong!", data
    null, and error set to the caught error (which it also logs). *)
Theorem submitFormToAPI_failed
    (net : Network) (data : JsObject.t) (u : jsstring) (w : World)
    (e : js_error) :
  respond net (api_request data u) = inl e
  \/ (exists r, respond net (api_request data u) = inr r
                /\ resp_json r = inl e) ->
  submitFormToAPI net data u w
  = (Normal {| status := None;
               success := false;
               message := JString (lit "Something went wrong!");
               data := JNull;
               error := Some e |},
     with_console (console w ++ [(lit "API Error:", e)])
       (after_fetch net (api_request data u) w)).
Proof.
  intros H. rewrite (submitFormToAPI_failed_any net data u w H). reflexivity.
Qed.

Lemma submitFormToAPI_failed_witness :
  eval (submitFormToAPI unreachable [] sample_url) (sample_world None None)
  = Normal (createResponseObject None JNull (Some sample_error))
  /\ eval (submitFormToAPI (garbled 502) [] sample_url) (sample_world None None)
     = Normal (createResponseObject None JNull (Some sample_syntax_error)).
Proof.
  unfold eval. split.
  - rewrite (@submitFormToAPI_failed unreachable [] sample_url
               (sample_world None None) sample_error).
    + reflexivity.
    + left. reflexivity.
  - rewrite (@submitFormToAPI_failed (garbled 502) [] sample_url
               (sample_world None None) sample_syntax_error).
    + reflexivity.
    + right. eexists. split; reflexivity.
Defined.

(** ** What each method does to the world *)

Lemma isValid_effect (w : World) :
  FormHandler.isValid w
  = (Normal (option_map checkValidity (form (formHandler w))),
     logged CallIsValid w).
Proof.
  destruct w as [[[f|]] rh ae ck tm rq co cl wr]; reflexivity.
Qed.

Lemma focusInvalidField_effect (w : World) :
  FormHandler.focusInvalidField w
  = (Normal tt,
     match getInvalidFields (form (formHandler w)) with
     | ControlElement i :: _ =>
         with_activeElement (Some i) (logged CallFocusInvalidField w)
     | _ => logged CallFocusInvalidField w
     end).
Proof.
  destruct w as [[fo] rh ae ck tm rq co cl wr].
  unfold FormHandler.focusInvalidField, FormHandler.getForm, bind, called,
    gets, modify, ret; simpl.
  destruct (getInvalidFields fo) as [|[i | j] rest]; reflexivity.
Qed.

Lemma addValidationClass_effect (w : World) :
  FormHandler.addValidationClass w
  = (Normal tt,
     with_formHandler
       {| form := option_map was_validated (form (formHandler w)) |}
       (logged CallAddValidationClass w)).
Proof.
  destruct w as [[[f|]] rh ae ck tm rq co cl wr]; reflexivity.
Qed.

Lemma getFormData_effect (w : World) (f : Form) :
  form (formHandler w) = Some f ->
  FormHandler.getFormData w
  = (Normal (formDataToObject (FormData_entries f)), logged CallGetFormData w).
Proof.
  destruct w as [[fo] rh ae ck tm rq co cl wr]; simpl. intros ->. reflexivity.
Qed.

Lemma reset_effect (w : World) :
  FormHandler.reset w
  = (Normal tt,
     with_formHandler {| form := option_map cleared (form (formHandler w)) |}
       (logged CallReset w)).
Proof.
  destruct w as [[[f|]] rh ae ck tm rq co cl wr]; reflexivity.
Qed.

Lemma displayMessage_effect (m : json) (s : jsstring) (w : World) :
  ResponseHandler.displayMessage m s w = (Normal tt, display_in m s w).
Proof.
  destruct w as [fh [[e|] h] ae ck tm rq co cl wr]; [|reflexivity].
  unfold ResponseHandler.displayMessage, display_in, display_writes,
    ResponseHandler.write, createMessage, bind, gets, modify, ret; simpl.
  rewrite <- !app_assoc. reflexivity.
Qed.

Lemma showLoading_effect (w : World) :
  ResponseHandler.showLoading w
  = (Normal tt,
     display_in (JString (lit "Please wait...")) (lit "loading")
       (logged CallShowLoading w)).
Proof.
  unfold ResponseHandler.showLoading, bind, called, modify.
  apply displayMessage_effect.
Qed.

Lemma showSuccess_effect (m : json) (w : World) :
  ResponseHandler.showSuccess m w
  = (Normal tt, display_in m (lit "success") (logged (CallShowSuccess m) w)).
Proof.
  unfold ResponseHandler.showSuccess, bind, called, modify.
  apply displayMessage_effect.
Qed.

Lemma showError_effect (m : json) (w : World) :
  ResponseHandler.showError m w
  = (Normal tt, display_in m (lit "error") (logged (CallShowError m) w)).
Proof.
  unfold ResponseHandler.showError, bind, called, modify.
  apply displayMessage_effect.
Qed.

Lemma hideAfter_effect (d : N) (w : World) :
  ResponseHandler.hideAfter (Some d) w
  = (Normal tt, hide_scheduled d (logged (CallHideAfter d) w)).
Proof. reflexivity. Qed.

(** ** The first invalid control *)

Lemma invalid_fieldsets_at_head (cs : list Control) (i j : nat)
    (fss : list Fieldset) (x : FormElement) (rest : list FormElement) :
  invalid_fieldsets_at cs i j fss = x :: rest ->
  exists k, x = FieldsetElement k.
Proof.
  revert j. induction fss as [|fs fss IH]; simpl; intros j H.
  - discriminate.
  - destruct (Nat.eqb (fs_first fs) i && fieldset_invalid cs fs).
    + injection H as <- _. eauto.
    + exact (IH _ H).
Qed.

Lemma invalid_from_nonempty (f : Form) (i : nat) (cs : list Control) :
  forallb control_valid cs = false -> invalid_from f i cs <> [].
Proof.
  revert i; induction cs as [|c cs IH]; simpl; intros i H.
  - discriminate.
  - intros E. apply app_eq_nil in E. destruct E as [_ E].
    apply app_eq_nil in E. destruct E as [E1 E2].
    destruct (control_valid c); simpl in H; [|discriminate].
    exact (IH _ H E2).
Qed.

Lemma invalid_from_head (f : Form) (k i : nat) (cs : list Control)
    (rest : list FormElement) :
  invalid_from f k cs = ControlElement i :: rest ->
  (k <= i)%nat
  /\ (exists c, nth_error cs (i - k) = Some c /\ control_valid c = false)
  /\ forall j c, (j < i - k)%nat ->
       nth_error cs j = Some c -> control_valid c = true.
Proof.
  revert k; induction cs as [|c cs IH]; simpl; intros k H.
  - discriminate.
  - destruct (invalid_fieldsets_at (controls f) k 0 (fieldsets f))
      as [|x xs] eqn:F.
    + simpl in H. destruct (control_valid c) eqn:V; simpl in H.
      * destruct (IH _ H) as (Hle & (c' & Hn & Hc') & Hbefore).
        split; [lia|]. split.
        -- exists c'. replace (i - k)%nat with (S (i - S k)) by lia. auto.
        -- intros [|j] d Hj; simpl.
           ++ intros [= <-]. exact V.
           ++ apply Hbefore. lia.
      * injection H as <- _. split; [lia|]. rewrite Nat.sub_diag. split.
        -- exists c. auto.
        -- intros j d Hj. lia.
    + destruct (invalid_fieldsets_at_head _ _ _ _ F) as (j & ->).
      simpl in H. discriminate.
Qed.

(** On an invalid form [:invalid] matches something; when the first match
    is a control, it is the first invalid control. *)
Lemma first_invalid_focused (f : Form) :
  checkValidity f = false ->
  match querySelectorAll_invalid f with
  | ControlElement i :: _ => first_invalid f i
  | FieldsetElement _ :: _ => True
  | [] => False
  end.
Proof.
  intros H. unfold querySelectorAll_invalid.
  destruct (invalid_from f 0 (controls f)) as [|[i | j] rest] eqn:E; auto.
  - exact (invalid_from_nonempty f 0 _ H E).
  - destruct (invalid_from_head _ _ _ E) as (_ & Hc & Hb).
    rewrite Nat.sub_0_r in *. split; assumption.
Qed.

(** Without fieldsets the first match is a control. *)
Lemma first_match_without_fieldsets (f : Form) :
  fieldsets f = [] ->
  match querySelectorAll_invalid f with
  | FieldsetElement _ :: _ => False
  | _ => True
  end.
Proof.
  intros Hf. unfold querySelectorAll_invalid.
  generalize 0%nat. induction (controls f) as [|c cs IH]; intros k; simpl; auto.
  rewrite Hf. simpl. destruct (control_valid c); simpl; [apply IH | exact I].
Qed.

(** ** The workflow *)

Lemma submitFormToAPI_effect
    (net : Network) (data : JsObject.t) (u : jsstring) (w : World) :
  submitFormToAPI net data u w
  = (Normal (api_result net data u), after_submit net data u w).
Proof.
  unfold api_result, after_submit, api_result.
  destruct (respond net (api_request data u)) as [e | r] eqn:Hr.
  - rewrite (@submitFormToAPI_failed_any net data u w e); auto.
  - destruct (resp_json r) as [e | b] eqn:Hb.
    + rewrite (@submitFormToAPI_failed_any net data u w e); eauto.
    + rewrite (@submitFormToAPI_completed_any net data u w r b); auto.
Qed.

Ltac step H := rewrite (bind_normal _ H).

Lemma isValid_reports (w : World) (v : option bool) :
  eval FormHandler.isValid w = Normal v ->
  v = option_map checkValidity (form (formHandler w)).
Proof.
  unfold eval. rewrite isValid_effect. simpl. intros [= <-]. reflexivity.
Qed.

Lemma getFormData_reports (w : World) (formData : JsObject.t) :
  eval FormHandler.getFormData w = Normal formData ->
  exists f, form (formHandler w) = Some f
            /\ formData = formDataToObject (FormData_entries f).
Proof.
  destruct w as [[[f|]] rh ae ck tm rq co cl wr]; unfold eval; simpl.
  - intros [= <-]. eauto.
  - discriminate.
Qed.

(** What a run does when the form adapter's [isValid()] reports false: it
    calls [focusInvalidField] and [addValidationClass] and returns false at
    once, with no network call and no status message shown.  The focus goes
    to the first match of [:invalid]: to the first invalid control when that
    match is a control, as it is on a form without fieldsets, and nowhere
    when it is a fieldset. *)
Lemma handleFormSubmit_invalid_form
    (net : Network) (u : jsstring) (opts : Options) (w : World)
    (v : option bool) :
  eval FormHandler.isValid w = Normal v ->
  not_valid v = true ->
  let w' := exec (handleFormSubmit net u opts) w in
  eval (handleFormSubmit net u opts) w = Normal false
  /\ calls w'
     = calls w ++ [CallIsValid; CallFocusInvalidField; CallAddValidationClass]
  /\ requests w' = requests w
  /\ responseHandler w' = responseHandler w
  /\ timers w' = timers w
  /\ form (formHandler w') = option_map was_validated (form (formHandler w))
  /\ (forall f, form (formHandler w) = Some f ->
        match querySelectorAll_invalid f with
        | ControlElement i :: _ =>
            activeElement w' = Some i /\ first_invalid f i
        | FieldsetElement _ :: _ => activeElement w' = activeElement w
        | [] => False
        end)
  /\ (forall f, form (formHandler w) = Some f -> fieldsets f = [] ->
        exists i, activeElement w' = Some i /\ first_invalid f i)
  /\ (form (formHandler w) = None -> activeElement w' = activeElement w).
Proof.
  intros Hv Hn w'.
  apply isValid_reports in Hv. subst v.
  assert (E : handleFormSubmit net u opts w
              = (Normal false,
                 with_formHandler
                   {| form := option_map was_validated (form (formHandler w)) |}
                   (logged CallAddValidationClass
                      match getInvalidFields (form (formHandler w)) with
                      | ControlElement i :: _ =>
                          with_activeElement (Some i)
                            (logged CallFocusInvalidField (logged CallIsValid w))
                      | _ => logged CallFocusInvalidField (logged CallIsValid w)
                      end))).
  { unfold handleFormSubmit.
    step (isValid_effect w). rewrite Hn.
    step (focusInvalidField_effect (logged CallIsValid w)).
    match goal with
    | |- bind _ _ ?w1 = _ => step (addValidationClass_effect w1)
    end.
    destruct w as [[fo] rh ae ck tm rq co cl wr]; simpl.
    destruct (getInvalidFields fo) as [|[i | j] rest]; reflexivity. }
  unfold w', eval, exec. rewrite E. clear E w'.
  assert (Hfocus : forall f, form (formHandler w) = Some f ->
            match querySelectorAll_invalid f with
            | ControlElement i :: _ =>
                activeElement
                  (with_formHandler
                     {| form := option_map was_validated (form (formHandler w)) |}
                     (logged CallAddValidationClass
                        match getInvalidFields (form (formHandler w)) with
                        | ControlElement i :: _ =>
                            with_activeElement (Some i)
                              (logged CallFocusInvalidField
                                 (logged CallIsValid w))
                        | _ =>
                            logged CallFocusInvalidField (logged CallIsValid w)
                        end)) = Some i
                /\ first_invalid f i
            | FieldsetElement _ :: _ =>
                activeElement
                  (with_formHandler
                     {| form := option_map was_validated (form (formHandler w)) |}
                     (logged CallAddValidationClass
                        match getInvalidFields (form (formHandler w)) with
                        | ControlElement i :: _ =>
                            with_activeElement (Some i)
                              (logged CallFocusInvalidField
                                 (logged CallIsValid w))
                        | _ =>
                            logged CallFocusInvalidField (logged CallIsValid w)
                        end)) = activeElement w
            | [] => False
            end).
  { intros f Hf. rewrite Hf in *. simpl in Hn. apply negb_true_iff in Hn.
    pose proof (first_invalid_focused f Hn) as Hq. simpl getInvalidFields.
    destruct (querySelectorAll_invalid f) as [|[i | j] rest]; auto;
      destruct w; simpl; auto. }
  destruct w as [[fo] rh ae ck tm rq co cl wr]; simpl in *.
  split; [reflexivity|].
  split; [destruct (getInvalidFields fo) as [|[i | j] rest]; simpl;
          rewrite <- !app_assoc; reflexivity|].
  split; [destruct (getInvalidFields fo) as [|[i | j] rest]; reflexivity|].
  split; [destruct (getInvalidFields fo) as [|[i | j] rest]; reflexivity|].
  split; [destruct (getInvalidFields fo) as [|[i | j] rest]; reflexivity|].
  split; [destruct (getInvalidFields fo) as [|[i | j] rest]; reflexivity|].
  split; [exact Hfocus|].
  split.
  - intros f Hf Hnone. specialize (Hfocus f Hf).
    pose proof (first_match_without_fieldsets f Hnone) as Hm.
    destruct (querySelectorAll_invalid f) as [|[i | j] rest];
      [contradiction | eauto | contradiction].
  - intros ->. reflexivity.
Qed.

Lemma handleFormSubmit_invalid_form_witness :
  let w := sample_world (Some (sample_form (lit "  ") (lit "hi"))) (Some sample_element) in
  eval (handleFormSubmit (answering 200 JNull) sample_url no_options) w
  = Normal false
  /\ requests (exec (handleFormSubmit (answering 200 JNull) sample_url no_options) w)
     = [].
Proof.
  intros w.
  destruct (@handleFormSubmit_invalid_form (answering 200 JNull) sample_url
              no_options w (Some false))
    as (Hret & _ & Hreq & _).
  - reflexivity.
  - reflexivity.
  - split; [exact Hret | exact Hreq].
Defined.

(** C6, on a page where the code misses it: the form's one invalid field,
    the first control, lies in a fieldset.  [isValid()] reports false and
    [handleFormSubmit] returns false at once with no network call and no
    status message, after [focusInvalidField] and [addValidationClass];
    but [:invalid] matches the fieldset first, [focus()] is called on it,
    and the first invalid field does not get the focus. *)
Theorem focusInvalidField_stops_at_fieldset :
  let f := fieldset_form [] (lit "hi") in
  let w := sample_world (Some f) (Some sample_element) in
  let w' := exec (handleFormSubmit unreachable sample_url no_options) w in
  eval FormHandler.isValid w = Normal (Some false)
  /\ first_invalid f 0
  /\ getInvalidFields (Some f) = [FieldsetElement 0; ControlElement 0]
  /\ eval (handleFormSubmit unreachable sample_url no_options) w = Normal false
  /\ calls w' = [CallIsValid; CallFocusInvalidField; CallAddValidationClass]
  /\ activeElement w' = None
  /\ requests w' = []
  /\ history w' = [].
Proof.
  cbv zeta. repeat split.
  - eexists. split; reflexivity.
  - intros j c Hj. inversion Hj.
Qed.

(** The world when the workflow has shown the loading message and read
    the form. *)
Lemma handleFormSubmit_valid_form
    (net : Network) (u : jsstring) (opts : Options) (w : World)
    (formData : JsObject.t) :
  eval FormHandler.isValid w = Normal (Some true) ->
  eval FormHandler.getFormData w = Normal formData ->
  handleFormSubmit net u opts w
  = (let requiredFields := option_default [] (requiredFields opts) in
     let resetDelay := option_default 5000 (resetDelay opts) in
     let validation := validateSubmission formData requiredFields in
     if negb (shouldProceed validation) then
       ResponseHandler.showError (missing_message (errors validation)) ;;
       ResponseHandler.hideAfter (Some resetDelay) ;;
       ret false
     else
       result <- submitFormToAPI net formData u ;;
       (if success result
        then ResponseHandler.showSuccess (message result)
        else ResponseHandler.showError (message result)) ;;
       FormHandler.reset ;;
       ResponseHandler.hideAfter (Some resetDelay) ;;
       ret (success result))
      (logged CallGetFormData
         (display_in loading_text (lit "loading")
            (logged CallShowLoading (logged CallIsValid w)))).
Proof.
  intros Hv Hd.
  apply isValid_reports in Hv.
  destruct (getFormData_reports _ Hd) as (f & Hf & ->).
  unfold handleFormSubmit.
  step (isValid_effect w). rewrite <- Hv.
  change (not_valid (Some true)) with false. cbv iota.
  step (showLoading_effect (logged CallIsValid w)).
  match goal with
  | |- bind _ _ ?w1 = _ =>
      assert (Hf1 : form (formHandler w1) = Some f)
        by (destruct w as [[fo] [[e|] h] ae ck tm rq co cl wr]; exact Hf);
      step (getFormData_effect w1 Hf1)
  end.
  reflexivity.
Qed.

(** C2, as amended: whenever form-adapter validation passes but the
    Submission Validator's outcome has [shouldProceed] false,
    [handleFormSubmit] shows exactly one error message, "Missing required
    fields: " followed by the names in the outcome's [errors], which are
    the names of the blank fields whether or not they are required, joined
    by ", " in the outcome's order; it schedules [hideAfter] with the
    configured reset delay, returns false, and performs no network call. *)
Theorem handleFormSubmit_blank_fields
    (net : Network) (u : jsstring) (opts : Options) (w : World)
    (formData : JsObject.t) :
  eval FormHandler.isValid w = Normal (Some true) ->
  eval FormHandler.getFormData w = Normal formData ->
  let validation :=
    validateSubmission formData (option_default [] (requiredFields opts)) in
  let resetDelay := option_default 5000 (resetDelay opts) in
  let text :=
    JString (lit "Missing required fields: "
             ++ join (lit ", ") (errors validation)) in
  shouldProceed validation = false ->
  let w' := exec (handleFormSubmit net u opts) w in
  eval (handleFormSubmit net u opts) w = Normal false
  /\ calls w'
     = calls w ++ [CallIsValid; CallShowLoading; CallGetFormData;
                   CallShowError text; CallHideAfter resetDelay]
  /\ timers w' = timers w ++ [{| set_at := clock w; delay := resetDelay |}]
  /\ requests w' = requests w
  /\ formHandler w' = formHandler w
  /\ responseHandler w'
     = displayed text (lit "error") (clock w)
         (displayed loading_text (lit "loading") (clock w)
            (responseHandler w))
  /\ errors validation
     = map fst (filter (fun entry => is_empty (trim (snd entry)))
                  (JsObject.entries formData)).
Proof.
  intros Hv Hd validation resetDelay text Hno w'.
  pose proof (errors_blank_keys formData (option_default [] (requiredFields opts)))
    as Herrors.
  fold validation in Herrors.
  unfold w', eval, exec.
  rewrite (handleFormSubmit_valid_form net u opts w Hv Hd).
  cbv zeta. fold validation. rewrite Hno.
  change (negb false) with true. cbv iota.
  match goal with
  | |- context [bind (ResponseHandler.showError ?m) _ ?w1] =>
      step (showError_effect m w1)
  end.
  match goal with
  | |- context [bind (ResponseHandler.hideAfter (Some ?d)) _ ?w1] =>
      step (hideAfter_effect d w1)
  end.
  destruct w as [fh rh ae ck tm rq co cl wr].
  repeat match goal with |- _ /\ _ => split end;
    try exact Herrors; simpl; try reflexivity.
  rewrite <- !app_assoc. reflexivity.
Qed.

Lemma handleFormSubmit_blank_fields_witness :
  let w := sample_world (Some (sample_form (lit "a@b.com") (lit "  ")))
             (Some sample_element) in
  let w' := exec (handleFormSubmit (answering 200 JNull) sample_url no_options) w in
  eval (handleFormSubmit (answering 200 JNull) sample_url no_options) w
  = Normal false
  /\ calls w'
     = [CallIsValid; CallShowLoading; CallGetFormData;
        CallShowError (JString (lit "Missing required fields: message"));
        CallHideAfter 5000]
  /\ requests w' = [].
Proof.
  intros w w'.
  destruct (@handleFormSubmit_blank_fields (answering 200 JNull) sample_url
              no_options w
              [(lit "email", lit "a@b.com"); (lit "message", lit "  ")])
    as (Hret & Hcalls & _ & Hreq & _).
  - reflexivity.
  - reflexivity.
  - reflexivity.
  - split; [exact Hret | split; [exact Hcalls | exact Hreq]].
Defined.

(** C2 as the specification states it fails where a blank field is not
    required: with [email] the one required field, and filled in, and a
    blank [message], no required field is missing, and the message shown
    names [message]. *)
Lemma handleFormSubmit_lists_fields_not_required :
  let opts := {| requiredFields := Some [lit "email"]; resetDelay := None |} in
  let w := sample_world (Some (sample_form (lit "a@b.com") (lit "  ")))
             (Some sample_element) in
  let formData := [(lit "email", lit "a@b.com"); (lit "message", lit "  ")] in
  let outcome := validateSubmission formData [lit "email"] in
  eval FormHandler.isValid w = Normal (Some true)
  /\ eval FormHandler.getFormData w = Normal formData
  /\ shouldProceed outcome = false
  /\ missing_required outcome = []
  /\ calls (exec (handleFormSubmit unreachable sample_url opts) w)
     = [CallIsValid; CallShowLoading; CallGetFormData;
        CallShowError (JString (lit "Missing required fields: message"));
        CallHideAfter 5000]
  /\ JString (lit "Missing required fields: message")
     <> JString (lit "Missing required fields: "
                 ++ join (lit ", ") (missing_required outcome)).
Proof. repeat split. discriminate. Qed.



(** ** The message history only grows *)

Lemma grows_ret {A} (a : A) : grows (ret a).
Proof. intros w. exists []. rewrite app_nil_r. reflexivity. Qed.

Lemma grows_throw {A} (e : js_error) : grows (@throw A e).
Proof. intros w. exists []. rewrite app_nil_r. reflexivity. Qed.

Lemma grows_gets {A} (f : World -> A) : grows (gets f).
Proof. intros w. exists []. rewrite app_nil_r. reflexivity. Qed.

Lemma grows_modify (f : World -> World) :
  (forall w, responseHandler (f w) = responseHandler w) -> grows (modify f).
Proof.
  intros H w. exists []. rewrite app_nil_r.
  unfold history, exec, modify; simpl. rewrite H. reflexivity.
Qed.

Lemma grows_bind {A B} (m : Js A) (k : A -> Js B) :
  grows m -> (forall a, grows (k a)) -> grows (bind m k).
Proof.
  intros Hm Hk w. unfold exec, bind.
  destruct (Hm w) as (a1 & H1). unfold exec in H1.
  destruct (m w) as [[a | e] w1]; simpl in *.
  - destruct (Hk a w1) as (a2 & H2). unfold exec in H2.
    exists (a1 ++ a2). rewrite H2, H1, app_assoc. reflexivity.
  - exists a1. exact H1.
Qed.

Lemma grows_try_catch {A} (m : Js A) (h : js_error -> Js A) :
  grows m -> (forall e, grows (h e)) -> grows (try_catch m h).
Proof.
  intros Hm Hh w. unfold exec, try_catch.
  destruct (Hm w) as (a1 & H1). unfold exec in H1.
  destruct (m w) as [[a | e] w1]; simpl in *.
  - exists a1. exact H1.
  - destruct (Hh e w1) as (a2 & H2). unfold exec in H2.
    exists (a1 ++ a2). rewrite H2, H1, app_assoc. reflexivity.
Qed.

Lemma grows_called (c : Call) : grows (called c).
Proof. apply grows_modify. intros [fh rh ae ck tm rq co cl wr]. reflexivity. Qed.

Lemma grows_displayMessage (m : json) (s : jsstring) :
  grows (ResponseHandler.displayMessage m s).
Proof.
  intros w. unfold exec. rewrite displayMessage_effect.
  destruct w as [fh [[e|] h] ae ck tm rq co cl wr]; unfold history; simpl.
  - eexists. reflexivity.
  - exists []. rewrite app_nil_r. reflexivity.
Qed.

Lemma grows_hide_callback : grows ResponseHandler.hide_callback.
Proof.
  intros [fh [[e|] h] ae ck tm rq co cl wr]; exists [];
    rewrite app_nil_r; reflexivity.
Qed.

Lemma grows_set_form (f : Form) : grows (FormHandler.set_form f).
Proof. apply grows_modify. intros [fh rh ae ck tm rq co cl wr]. reflexivity. Qed.

Create HintDb grows.
#[local] Hint Resolve grows_ret grows_throw grows_gets grows_called
  grows_displayMessage grows_hide_callback grows_set_form : grows.

(** Goes through a computation built of [bind], [try_catch], conditionals
    and the primitives above. *)
Ltac grows_steps :=
  repeat first
    [ solve [auto with grows]
    | apply grows_bind; [| intros ?]
    | apply grows_try_catch; [| intros ?]
    | apply grows_modify;
      let w := fresh "w" in
      intros w; destruct w; reflexivity
    | match goal with
      | |- grows (match ?x with _ => _ end) => destruct x
      | |- grows (let (_, _) := ?x in _) => destruct x
      end ].

Lemma grows_isValid : grows FormHandler.isValid.
Proof. unfold FormHandler.isValid, FormHandler.getForm. grows_steps. Qed.

Lemma grows_reset : grows FormHandler.reset.
Proof. unfold FormHandler.reset, FormHandler.getForm. grows_steps. Qed.

Lemma grows_addValidationClass : grows FormHandler.addValidationClass.
Proof.
  unfold FormHandler.addValidationClass, FormHandler.getForm. grows_steps.
Qed.

Lemma grows_focusInvalidField : grows FormHandler.focusInvalidField.
Proof.
  unfold FormHandler.focusInvalidField, FormHandler.getForm,
    FormHandler.Element_focus.
  grows_steps.
Qed.

Lemma grows_getFormData : grows FormHandler.getFormData.
Proof. unfold FormHandler.getFormData, FormHandler.getForm. grows_steps. Qed.

Lemma grows_showLoading : grows ResponseHandler.showLoading.
Proof. unfold ResponseHandler.showLoading. grows_steps. Qed.

Lemma grows_showSuccess (m : json) : grows (ResponseHandler.showSuccess m).
Proof. unfold ResponseHandler.showSuccess. grows_steps. Qed.

Lemma grows_showError (m : json) : grows (ResponseHandler.showError m).
Proof. unfold ResponseHandler.showError. grows_steps. Qed.

Lemma grows_hideAfter (d : option N) : grows (ResponseHandler.hideAfter d).
Proof. unfold ResponseHandler.hideAfter. grows_steps. Qed.

Lemma grows_getMessageHistory (s : option jsstring) :
  grows (ResponseHandler.getMessageHistory s).
Proof. unfold ResponseHandler.getMessageHistory. grows_steps. Qed.

Lemma grows_getLastMessage : grows ResponseHandler.getLastMessage.
Proof. unfold ResponseHandler.getLastMessage. grows_steps. Qed.

Lemma grows_submitFormToAPI (net : Network) (d : JsObject.t) (u : jsstring) :
  grows (submitFormToAPI net d u).
Proof.
  unfold submitFormToAPI, fetch, Response_json, console_error. grows_steps.
Qed.

#[local] Hint Resolve grows_isValid grows_reset grows_addValidationClass
  grows_focusInvalidField grows_getFormData grows_showLoading
  grows_showSuccess grows_showError grows_hideAfter grows_getMessageHistory
  grows_getLastMessage grows_submitFormToAPI : grows.

Lemma grows_handleFormSubmit (net : Network) (u : jsstring) (o : Options) :
  grows (handleFormSubmit net u o).
Proof. unfold handleFormSubmit. grows_steps. Qed.

#[local] Hint Resolve grows_handleFormSubmit : grows.

Lemma grows_on_submit (net : Network) (u : jsstring) :
  grows (on_submit net u).
Proof. unfold on_submit, console_error. grows_steps. Qed.

Lemma perform_grows (net : Network) (op : Operation) (w : World) :
  exists added, history (perform net op w) = history w ++ added.
Proof.
  destruct op; unfold perform;
    [ apply grows_displayMessage | apply grows_showLoading
    | apply grows_showSuccess | apply grows_showError
    | apply grows_getMessageHistory | apply grows_getLastMessage
    | apply grows_hideAfter | apply grows_hide_callback
    | apply grows_isValid | apply grows_reset
    | apply grows_addValidationClass | apply grows_focusInvalidField
    | apply grows_getFormData | apply grows_submitFormToAPI
    | apply grows_handleFormSubmit | apply grows_on_submit ].
Qed.

Lemma perform_all_grows (net : Network) (ops : list Operation) (w : World) :
  exists added, history (perform_all net ops w) = history w ++ added.
Proof.
  unfold perform_all. revert w.
  induction ops as [|op ops IH]; intros w; simpl.
  - exists []. rewrite app_nil_r. reflexivity.
  - destruct (IH (perform net op w)) as (a2 & H2).
    destruct (perform_grows net op w) as (a1 & H1).
    exists (a1 ++ a2). rewrite H2, H1, app_assoc. reflexivity.
Qed.

Lemma display_in_shows
    (c : Call) (m : json) (s : jsstring) (w : World) :
  let entry := {| content := m; msg_status := s; timestamp := clock w |} in
  let w' := display_in m s (logged c w) in
  match resultElement (responseHandler w) with
  | Some e =>
      history w' = history w ++ [entry]
      /\ writes w'
         = writes w
           ++ [ SetMessageHistory (history w ++ [entry]);
                SetInnerHTML m;
                SetDisplay (lit "block");
                UpdateClasses (getClassConfig s) ]
      /\ resultElement (responseHandler w')
         = Some (ResponseHandler.show_in e m s)
  | None =>
      history w' = history w
      /\ writes w' = writes w
      /\ resultElement (responseHandler w') = None
  end.
Proof.
  destruct w as [fh [[e|] h] ae ck tm rq co cl wr]; cbv zeta;
    repeat split.
Qed.




(** C10: if a response handler's [resultElement] is null, as it is when the
    configured element id was not found at construction, then
    [displayMessage], and hence [showLoading], [showSuccess] and
    [showError], returns without appending anything to the message history
    and without changing any visible state: the handler is left as it
    was. *)
Theorem displayMessage_without_element (w : World) :
  resultElement (responseHandler w) = None ->
  let dropped (m : Js unit) :=
    eval m w = Normal tt
    /\ responseHandler (exec m w) = responseHandler w
    /\ history (exec m w) = history w
    /\ formHandler (exec m w) = formHandler w
    /\ activeElement (exec m w) = activeElement w
    /\ timers (exec m w) = timers w
    /\ requests (exec m w) = requests w in
  (forall m s, ResponseHandler.displayMessage m s w = (Normal tt, w))
  /\ dropped ResponseHandler.showLoading
  /\ (forall m, dropped (ResponseHandler.showSuccess m))
  /\ (forall m, dropped (ResponseHandler.showError m)).
Proof.
  intros Hnone. cbv zeta.
  assert (Hd : forall m s c, display_in m s (logged c w) = logged c w).
  { intros m s c. destruct w as [fh [el h] ae ck tm rq co cl wr].
    simpl in Hnone. subst el. reflexivity. }
  unfold eval, exec, history.
  split; [|split; [|split]].
  - intros m s. rewrite displayMessage_effect.
    destruct w as [fh [el h] ae ck tm rq co cl wr].
    simpl in Hnone. subst el. reflexivity.
  - rewrite showLoading_effect, Hd. destruct w; repeat split.
  - intros m. rewrite showSuccess_effect, Hd. destruct w; repeat split.
  - intros m. rewrite showError_effect, Hd. destruct w; repeat split.
Qed.

Lemma displayMessage_without_element_witness :
  let w :=
    with_responseHandler
      (ResponseHandler.constructor [(lit "result", sample_element)]
         (lit "password"))
      (sample_world None None) in
  ResponseHandler.displayMessage (JString (lit "ok")) (lit "success") w
  = (Normal tt, w).
Proof.
  intros w.
  apply (proj1 (displayMessage_without_element w eq_refl)).
Defined.

(** ** Scenarios *)

Example trim_both_ends :
  trim (lit "  a b ") = lit "a b" /\ trim [0x09; 0xA0; 0x2028] = [].
Proof. split; reflexivity. Qed.

(** Array-index keys come first, in numeric order; a repeated key keeps
    its place and takes the later value. *)
Example formDataToObject_order :
  formDataToObject
    [(lit "b", lit "1"); (lit "10", lit "2"); (lit "2", lit "3");
     (lit "a", lit "4"); (lit "b", lit "5"); (lit "01", lit "6")]
  = [(lit "2", lit "3"); (lit "10", lit "2"); (lit "b", lit "5");
     (lit "a", lit "4"); (lit "01", lit "6")].
Proof. reflexivity. Qed.

Example stringify_entry :
  Json.stringify [(lit "email", lit "a@b.com")]
  = [0x7B; 0x22] ++ lit "email" ++ [0x22; 0x3A; 0x22] ++ lit "a@b.com"
    ++ [0x22; 0x7D].
Proof. reflexivity. Qed.

(** required = {email, message}, input {email: "", message: "hi"}. *)
Example scenario_blank_email :
  let outcome :=
    validateSubmission [(lit "email", []); (lit "message", lit "hi")]
      [lit "email"; lit "message"] in
  shouldProceed outcome = false /\ errors outcome = [lit "email"].
Proof. split; reflexivity. Qed.

(** required = {email}, input {email: "a@b.com"}, the server answers 200
    with {message: "ok"}: the workflow succeeds, "ok" is shown, the form is
    reset. *)
Example scenario_accepted :
  let net := answering 200 (JObject [(lit "message", JString (lit "ok"))]) in
  let opts := {| requiredFields := Some [lit "email"]; resetDelay := None |} in
  let w := sample_world (Some (sample_form (lit "a@b.com") (lit "hi")))
             (Some sample_element) in
  let w' := exec (handleFormSubmit net sample_url opts) w in
  eval (handleFormSubmit net sample_url opts) w = Normal true
  /\ map content (history w')
     = [JString (lit "Please wait..."); JString (lit "ok")]
  /\ option_map innerHTML (resultElement (responseHandler w'))
     = Some (JString (lit "ok"))
  /\ option_map classList (resultElement (responseHandler w'))
     = Some [lit "text-green-500"]
  /\ option_map FormData_entries (form (formHandler w'))
     = Some [(lit "email", []); (lit "message", [])]
  /\ timers w' = [{| set_at := 1040; delay := 5000 |}].
Proof. repeat split. Qed.

(** The network call fails: the generic message is shown and the form is
    reset all the same. *)
Example scenario_connection_error :
  let w := sample_world (Some (sample_form (lit "a@b.com") (lit "hi")))
             (Some sample_element) in
  let w' := exec (handleFormSubmit unreachable sample_url no_options) w in
  eval (handleFormSubmit unreachable sample_url no_options) w = Normal false
  /\ map content (history w')
     = [JString (lit "Please wait..."); JString (lit "Something went wrong!")]
  /\ option_map FormData_entries (form (formHandler w'))
     = Some [(lit "email", []); (lit "message", [])]
  /\ console w' = [(lit "API Error:", sample_error)].
Proof. repeat split. Qed.

(** Native validation fails: nothing is sent, the first invalid control
    has the focus. *)
Example scenario_native_validation :
  let w := sample_world (Some (sample_form (lit " ") (lit "hi")))
             (Some sample_element) in
  let w' := exec (handleFormSubmit unreachable sample_url no_options) w in
  eval (handleFormSubmit unreachable sample_url no_options) w = Normal false
  /\ requests w' = [] /\ activeElement w' = Some 0%nat /\ history w' = [].
Proof. repeat split. Qed.

(* ================================================================== *)
(** * Further properties *)

(** ** Trimming *)

Lemma trimStart_split (s : jsstring) :
  exists pre, s = pre ++ trimStart s /\ all_white_space pre = true.
Proof.
  induction s as [|c r (pre & E & W)]; simpl.
  - exists []. auto.
  - destruct (is_white_space c) eqn:Hc.
    + exists (c :: pre). simpl. rewrite Hc, W, <- E. auto.
    + exists []. auto.
Qed.

Lemma trimEnd_split (s : jsstring) :
  exists post, s = trimEnd s ++ post /\ all_white_space post = true.
Proof.
  induction s as [|c r (post & E & W)]; simpl.
  - exists []. auto.
  - destruct (trimEnd r) as [|d r'] eqn:T.
    + simpl in E. subst post.
      destruct (is_white_space c) eqn:Hc.
      * exists (c :: r). simpl. rewrite Hc, W. auto.
      * exists r. auto.
    + exists post. rewrite E at 1. auto.
Qed.

Lemma trimEnd_last (s : jsstring) :
  trimEnd s = []
  \/ exists init c, trimEnd s = init ++ [c] /\ is_white_space c = false.
Proof.
  induction s as [|c r IH]; simpl; auto.
  destruct (trimEnd r) as [|d r'] eqn:T.
  - destruct (is_white_space c) eqn:Hc; auto.
    right. exists [], c. auto.
  - right. destruct IH as [IH | (init & x & E & Hx)]; [discriminate|].
    exists (c :: init), x. rewrite E. auto.
Qed.

Lemma trimStart_all_white_space (s : jsstring) :
  all_white_space (trimStart s) = all_white_space s.
Proof.
  induction s as [|c r IH]; simpl; auto.
  destruct (is_white_space c) eqn:Hc; simpl; auto.
  rewrite Hc. reflexivity.
Qed.

Lemma trimEnd_is_empty (s : jsstring) :
  is_empty (trimEnd s) = all_white_space s.
Proof.
  induction s as [|c r IH]; simpl; auto.
  destruct (trimEnd r) as [|d r'] eqn:T; simpl in IH; rewrite <- IH.
  - destruct (is_white_space c); reflexivity.
  - rewrite andb_false_r. reflexivity.
Qed.

Lemma trim_is_empty (s : jsstring) :
  is_empty (trim s) = all_white_space s.
Proof.
  unfold trim. rewrite trimEnd_is_empty. apply trimStart_all_white_space.
Qed.

(** X1: the value [transformField] gives a field is the raw value without
    a run of whitespace at its start and one at its end; what is left is
    empty or starts and ends with a character that is not whitespace; and
    [isEmpty] is true exactly when the raw value is whitespace only. *)
Theorem transformField_strips_whitespace (field : RawField) :
  let v := tf_value (transformField field) in
  (exists pre post,
      raw_value field = pre ++ v ++ post
      /\ all_white_space pre = true /\ all_white_space post = true)
  /\ (v = []
      \/ exists c mid_last,
           v = c :: mid_last /\ is_white_space c = false
           /\ is_white_space (last mid_last c) = false)
  /\ tf_isEmpty (transformField field) = all_white_space (raw_value field)
  /\ tf_name (transformField field) = raw_name field
  /\ tf_required (transformField field) = raw_required field.
Proof.
  destruct field as [n raw req]; simpl.
  split; [|split; [|split; [|split]]]; auto.
  - destruct (trimStart_split raw) as (pre & E1 & W1).
    destruct (trimEnd_split (trimStart raw)) as (post & E2 & W2).
    exists pre, post. unfold trim. rewrite <- E2. auto.
  - pose proof (trimStart_settled raw) as Hs.
    apply trimEnd_settled in Hs. fold (trim raw) in Hs.
    destruct (trimEnd_last (trimStart raw)) as [E | (init & x & E & Hx)];
      fold (trim raw) in E; auto.
    right. destruct (trim raw) as [|c rest] eqn:T.
    + destruct init; discriminate.
    + exists c, rest. simpl in Hs. apply negb_true_iff in Hs.
      repeat split; auto.
      destruct init as [|i init]; simpl in E.
      * injection E as -> ->. exact Hx.
      * injection E as -> ->. rewrite last_last. exact Hx.
  - apply trim_is_empty.
Qed.

(** ** The helpers around the validator *)

Lemma find_filter {A} (p : A -> bool) (l : list A) :
  find p l = hd_error (filter p l).
Proof.
  induction l as [|a l IH]; simpl; auto.
  destruct (p a); simpl; auto.
Qed.

(** X2: [findFirstError] on the validator's fields and the validator's
    outcome agree: the name of the field it returns is the first of
    [errors], and it returns [undefined] exactly when [shouldProceed] is
    true. *)
Theorem findFirstError_heads_errors (M : JsObject.t) (R : list jsstring) :
  let outcome := validateSubmission M R in
  option_map name (findFirstError (validationResults outcome))
  = hd_error (errors outcome)
  /\ shouldProceed outcome
     = match findFirstError (validationResults outcome) with
       | None => true
       | Some _ => false
       end.
Proof.
  unfold validateSubmission, findFirstError; simpl.
  rewrite find_filter.
  destruct (filter _ (transformAndValidateFields M R)); auto.
Qed.

(** X3: on the validator's fields, [findEmptyRequiredFields] returns the
    fields named in [errors] whose name is in the required list, in the
    same order; with an empty required list it returns nothing, whatever
    the errors. *)
Theorem findEmptyRequiredFields_filters_errors
    (M : JsObject.t) (R : list jsstring) :
  let outcome := validateSubmission M R in
  map name (findEmptyRequiredFields (validationResults outcome))
  = filter (includes R) (errors outcome)
  /\ findEmptyRequiredFields (validationResults (validateSubmission M [])) = [].
Proof.
  cbv zeta. split.
  - rewrite errors_blank_keys. unfold validateSubmission; simpl.
    rewrite transformAndValidateFields_map.
    unfold JsObject.entries, findEmptyRequiredFields.
    induction M as [|[k v] M IH]; simpl; auto.
    unfold blank at 1; simpl.
    destruct (is_empty (trim v)); simpl; auto.
    destruct (includes R k); simpl; rewrite IH; reflexivity.
  - unfold validateSubmission; simpl.
    rewrite transformAndValidateFields_map.
    unfold JsObject.entries, findEmptyRequiredFields.
    induction M as [|[k v] M IH]; simpl; auto.
    rewrite andb_false_r. exact IH.
Qed.

(** ** The object built from the form's entries *)

Lemma jsstring_eqb_neq (a b : jsstring) : JsString.eqb a b = false <-> a <> b.
Proof.
  rewrite <- jsstring_eqb_eq. destruct (JsString.eqb a b); split;
    congruence.
Qed.

Lemma jsstring_eqb_sym_false (a b : jsstring) :
  JsString.eqb a b = false -> JsString.eqb b a = false.
Proof. rewrite !jsstring_eqb_neq. auto. Qed.

Lemma get_None_keys (o : JsObject.t) (k : jsstring) :
  JsObject.get o k = None <-> ~ In k (JsObject.keys o).
Proof.
  induction o as [|[k' v'] o IH]; simpl.
  - tauto.
  - destruct (JsString.eqb k k') eqn:E.
    + apply jsstring_eqb_eq in E. subst. split; [discriminate | tauto].
    + apply jsstring_eqb_neq in E. rewrite IH. split.
      * intros H [H1 | H1]; [congruence | tauto].
      * tauto.
Qed.

Lemma keys_replace (o : JsObject.t) (k v : jsstring) :
  JsObject.keys (JsObject.replace k v o) = JsObject.keys o.
Proof.
  induction o as [|[k' v'] o IH]; simpl; auto.
  destruct (JsString.eqb k k'); simpl; [|rewrite IH]; reflexivity.
Qed.

Lemma get_replace (o : JsObject.t) (k v k0 : jsstring) :
  JsObject.get (JsObject.replace k v o) k0
  = if JsString.eqb k0 k
    then match JsObject.get o k with Some _ => Some v | None => None end
    else JsObject.get o k0.
Proof.
  induction o as [|[k' v'] o IH]; simpl.
  - destruct (JsString.eqb k0 k); reflexivity.
  - destruct (JsString.eqb k k') eqn:E; simpl.
    + apply jsstring_eqb_eq in E. subst k'.
      destruct (JsString.eqb k0 k); reflexivity.
    + rewrite IH. destruct (JsString.eqb k0 k') eqn:E0.
      * apply jsstring_eqb_eq in E0. subst k'.
        rewrite jsstring_eqb_sym_false; auto.
      * reflexivity.
Qed.

Lemma keys_insert_index (n : N) (k v : jsstring) (o : JsObject.t) :
  Add k (JsObject.keys o) (JsObject.keys (JsObject.insert_index n k v o)).
Proof.
  induction o as [|[k' v'] o IH]; simpl.
  - constructor.
  - destruct (JsObject.array_index k') as [m|].
    + destruct (m <? n); simpl; constructor. exact IH.
    + simpl. constructor.
Qed.

Lemma keys_append (k v : jsstring) (o : JsObject.t) :
  Add k (JsObject.keys o) (JsObject.keys (o ++ [(k, v)])).
Proof.
  induction o as [|[k' v'] o IH]; simpl; constructor. exact IH.
Qed.

Lemma get_insert_index (n : N) (k v k0 : jsstring) (o : JsObject.t) :
  JsObject.get o k = None ->
  JsObject.get (JsObject.insert_index n k v o) k0
  = if JsString.eqb k0 k then Some v else JsObject.get o k0.
Proof.
  induction o as [|[k' v'] o IH]; simpl; intros Hk.
  - destruct (JsString.eqb k0 k); reflexivity.
  - destruct (JsString.eqb k k') eqn:E; [discriminate|].
    assert (Hhere : JsObject.get ((k, v) :: (k', v') :: o) k0
                    = if JsString.eqb k0 k then Some v
                      else if JsString.eqb k0 k' then Some v'
                           else JsObject.get o k0) by reflexivity.
    destruct (JsObject.array_index k') as [m|]; [destruct (m <? n)|];
      try exact Hhere.
    simpl. rewrite (IH Hk).
    destruct (JsString.eqb k0 k') eqn:E0; auto.
    apply jsstring_eqb_eq in E0. subst k'.
    rewrite jsstring_eqb_sym_false; auto.
Qed.

Lemma get_append (k v k0 : jsstring) (o : JsObject.t) :
  JsObject.get o k = None ->
  JsObject.get (o ++ [(k, v)]) k0
  = if JsString.eqb k0 k then Some v else JsObject.get o k0.
Proof.
  induction o as [|[k' v'] o IH]; simpl; intros Hk.
  - destruct (JsString.eqb k0 k); reflexivity.
  - destruct (JsString.eqb k k') eqn:E; [discriminate|].
    rewrite (IH Hk).
    destruct (JsString.eqb k0 k') eqn:E0; auto.
    apply jsstring_eqb_eq in E0. subst k'.
    rewrite jsstring_eqb_sym_false; auto.
Qed.

Lemma get_define_property (o : JsObject.t) (k v k0 : jsstring) :
  JsObject.get (define_property o k v) k0
  = if JsString.eqb k0 k then Some v else JsObject.get o k0.
Proof.
  unfold define_property.
  destruct (JsObject.get o k) eqn:G.
  - rewrite get_replace, G. reflexivity.
  - destruct (JsObject.array_index k).
    + apply get_insert_index; exact G.
    + apply get_append; exact G.
Qed.

Lemma set_define_property (o : JsObject.t) (k v : jsstring) :
  JsObject.set o k v
  = if JsString.eqb k proto_key then o else define_property o k v.
Proof. reflexivity. Qed.

Lemma keys_define_property (o : JsObject.t) (k v : jsstring) :
  (In k (JsObject.keys o)
   /\ JsObject.keys (define_property o k v) = JsObject.keys o)
  \/ (~ In k (JsObject.keys o)
      /\ Add k (JsObject.keys o) (JsObject.keys (define_property o k v))).
Proof.
  unfold define_property.
  destruct (JsObject.get o k) eqn:G.
  - left. split; [|apply keys_replace].
    destruct (in_dec (list_eq_dec N.eq_dec) k (JsObject.keys o)) as [H|H];
      auto.
    apply get_None_keys in H. congruence.
  - right. split; [apply get_None_keys; exact G|].
    destruct (JsObject.array_index k);
      [apply keys_insert_index | apply keys_append].
Qed.

Lemma fold_set_get (es : list (jsstring * jsstring)) (o : JsObject.t)
    (k : jsstring) :
  k <> proto_key ->
  JsObject.get
    (fold_left (fun acc '(key, value) => JsObject.set acc key value) es o) k
  = fold_left (fun acc '(k', v) => if JsString.eqb k k' then Some v else acc)
      es (JsObject.get o k).
Proof.
  intros Hk. revert o. induction es as [|[k' v'] es IH]; intros o; simpl; auto.
  rewrite IH. f_equal.
  rewrite set_define_property.
  destruct (JsString.eqb k' proto_key) eqn:P.
  - apply jsstring_eqb_eq in P. subst k'.
    apply jsstring_eqb_neq in Hk. rewrite Hk. reflexivity.
  - apply get_define_property.
Qed.

Lemma fold_set_no_proto (es : list (jsstring * jsstring)) (o : JsObject.t) :
  JsObject.get o proto_key = None ->
  JsObject.get
    (fold_left (fun acc '(key, value) => JsObject.set acc key value) es o)
    proto_key = None.
Proof.
  revert o. induction es as [|[k' v'] es IH]; intros o Ho; simpl; auto.
  apply IH. rewrite set_define_property.
  destruct (JsString.eqb k' proto_key) eqn:P; auto.
  rewrite get_define_property.
  rewrite (jsstring_eqb_sym_false _ _ P). exact Ho.
Qed.

(** X4: in the object [getFormData] builds, a name other than [__proto__]
    has the value of the last form entry of that name, and has no property
    when the form has no such entry; [__proto__] never becomes a
    property. *)
Theorem formDataToObject_last_entry_wins
    (es : list (jsstring * jsstring)) (k : jsstring) :
  JsObject.get (formDataToObject es) k
  = if JsString.eqb k proto_key then None else last_value es k.
Proof.
  unfold formDataToObject, last_value.
  destruct (JsString.eqb k proto_key) eqn:P.
  - apply jsstring_eqb_eq in P. subst k.
    apply fold_set_no_proto. reflexivity.
  - apply jsstring_eqb_neq in P. rewrite (fold_set_get es _ P). reflexivity.
Qed.

(** Order of the keys *)

Lemma no_index_replace (k v : jsstring) (o : JsObject.t) :
  forallb (fun entry => negb (is_index entry)) (JsObject.replace k v o)
  = forallb (fun entry => negb (is_index entry)) o.
Proof.
  induction o as [|[k' v'] o IH]; simpl; auto.
  destruct (JsString.eqb k k'); simpl; [|rewrite IH]; reflexivity.
Qed.

Lemma index_first_replace (lo : N) (k v : jsstring) (o : JsObject.t) :
  index_first lo (JsObject.replace k v o) = index_first lo o.
Proof.
  revert lo. induction o as [|[k' v'] o IH]; intros lo; simpl; auto.
  destruct (JsString.eqb k k'); simpl; auto.
  destruct (JsObject.array_index k').
  - rewrite IH. reflexivity.
  - apply no_index_replace.
Qed.

Lemma index_first_insert (lo n : N) (k v : jsstring) (o : JsObject.t) :
  JsObject.array_index k = Some n -> lo <= n ->
  index_first lo o = true ->
  index_first lo (JsObject.insert_index n k v o) = true.
Proof.
  intros Hk. revert lo. induction o as [|[k' v'] o IH]; intros lo Hlo; simpl.
  - rewrite Hk. intros _. apply andb_true_iff. split; auto.
    apply N.leb_le. exact Hlo.
  - destruct (JsObject.array_index k') as [m|] eqn:K'.
    + rewrite andb_true_iff. intros [H1 H2].
      destruct (m <? n) eqn:L; simpl.
      * rewrite K', H1. simpl. apply IH; auto.
        apply N.ltb_lt in L. lia.
      * rewrite Hk, K', H2. apply N.ltb_ge in L.
        rewrite !andb_true_iff, !N.leb_le. auto.
    + intros H. simpl. rewrite Hk, K', H.
      rewrite andb_true_r. apply N.leb_le. exact Hlo.
Qed.

Lemma index_first_append (lo : N) (k v : jsstring) (o : JsObject.t) :
  JsObject.array_index k = None ->
  index_first lo o = true ->
  index_first lo (o ++ [(k, v)]) = true.
Proof.
  intros Hk. revert lo. induction o as [|[k' v'] o IH]; intros lo; simpl.
  - rewrite Hk. reflexivity.
  - destruct (JsObject.array_index k') as [m|].
    + rewrite !andb_true_iff. intros [H1 H2]. auto.
    + intros H. rewrite forallb_app, H. simpl.
      unfold is_index; simpl. rewrite Hk. reflexivity.
Qed.

Lemma index_first_define (o : JsObject.t) (k v : jsstring) :
  index_first 0 o = true -> index_first 0 (define_property o k v) = true.
Proof.
  intros H. unfold define_property.
  destruct (JsObject.get o k).
  - rewrite index_first_replace. exact H.
  - destruct (JsObject.array_index k) as [n|] eqn:K.
    + apply index_first_insert; auto. lia.
    + apply index_first_append; auto.
Qed.

Lemma NoDup_define (o : JsObject.t) (k v : jsstring) :
  NoDup (JsObject.keys o) -> NoDup (JsObject.keys (define_property o k v)).
Proof.
  intros H.
  destruct (keys_define_property o k v) as [[_ E] | [Hn A]].
  - rewrite E. exact H.
  - apply (NoDup_Add A). auto.
Qed.

Lemma fold_set_well_formed (es : list (jsstring * jsstring)) (o : JsObject.t) :
  well_formed_keys o ->
  well_formed_keys
    (fold_left (fun acc '(key, value) => JsObject.set acc key value) es o).
Proof.
  revert o. induction es as [|[k v] es IH]; intros o H; simpl; auto.
  apply IH. rewrite set_define_property.
  destruct (JsString.eqb k proto_key); auto.
  destruct H as [H1 H2]. split;
    [apply NoDup_define | apply index_first_define]; assumption.
Qed.

Lemma fold_define_well_formed
    (es : list (jsstring * jsstring)) (o : JsObject.t) :
  well_formed_keys o ->
  well_formed_keys
    (fold_left (fun acc '(key, value) => define_property acc key value) es o).
Proof.
  revert o. induction es as [|[k v] es IH]; intros o H; simpl; auto.
  apply IH. destruct H as [H1 H2]. split;
    [apply NoDup_define | apply index_first_define]; assumption.
Qed.

Lemma fold_define_get (es : list (jsstring * jsstring)) (o : JsObject.t)
    (k : jsstring) :
  JsObject.get
    (fold_left (fun acc '(key, value) => define_property acc key value) es o) k
  = fold_left (fun acc '(k', v) => if JsString.eqb k k' then Some v else acc)
      es (JsObject.get o k).
Proof.
  revert o. induction es as [|[k' v'] es IH]; intros o; simpl; auto.
  rewrite IH. f_equal. apply get_define_property.
Qed.

Lemma last_value_None (es : list (jsstring * jsstring)) (k : jsstring)
    (acc : option jsstring) :
  fold_left (fun acc '(k', v) => if JsString.eqb k k' then Some v else acc)
    es acc = None
  <-> acc = None /\ ~ In k (map fst es).
Proof.
  revert acc. induction es as [|[k' v'] es IH]; intros acc; simpl.
  - tauto.
  - rewrite IH. destruct (JsString.eqb k k') eqn:E.
    + apply jsstring_eqb_eq in E. subst k'.
      split; [intros [H _]; discriminate | intros [_ H]; tauto].
    + apply jsstring_eqb_neq in E. split.
      * intros [H1 H2]. split; auto. intros [H | H]; [congruence | tauto].
      * intros [H1 H2]. tauto.
Qed.

Lemma keys_filter_distinct
    (keep : jsstring * jsstring -> bool) (o : JsObject.t) :
  NoDup (JsObject.keys o) -> NoDup (JsObject.keys (filter keep o)).
Proof.
  unfold JsObject.keys.
  induction o as [|entry o IH]; simpl; intros Hd; [constructor|].
  apply NoDup_cons_iff in Hd. destruct Hd as [Hfresh Hrest].
  destruct (keep entry); simpl; [|exact (IH Hrest)].
  apply NoDup_cons_iff. split; [|exact (IH Hrest)].
  intros Hin. apply Hfresh.
  apply in_map_iff in Hin. destruct Hin as (e & Ee & He).
  apply filter_In in He. rewrite <- Ee. apply in_map. apply He.
Qed.

(** X5: the object [getFormData] builds is well formed whatever the form's
    entries: no key occurs twice, array-index keys come first in ascending
    order, and its keys are exactly the names of the entries other than
    [__proto__]. *)
Theorem formDataToObject_well_formed (es : list (jsstring * jsstring)) :
  NoDup (JsObject.keys (formDataToObject es))
  /\ index_first 0 (formDataToObject es) = true
  /\ forall k,
       In k (JsObject.keys (formDataToObject es))
       <-> In k (map fst es) /\ k <> proto_key.
Proof.
  assert (W : well_formed_keys (formDataToObject es)).
  { apply fold_set_well_formed. split; [constructor | reflexivity]. }
  destruct W as [W1 W2]. split; [|split]; auto.
  intros k.
  destruct (in_dec (list_eq_dec N.eq_dec) k (JsObject.keys (formDataToObject es)))
    as [Hin | Hout].
  - split; auto. intros _.
    destruct (list_eq_dec N.eq_dec k proto_key) as [-> | Hk].
    + exfalso. revert Hin. apply get_None_keys.
      apply fold_set_no_proto. reflexivity.
    + split; auto.
      destruct (in_dec (list_eq_dec N.eq_dec) k (map fst es)) as [H | H]; auto.
      exfalso. revert Hin. apply get_None_keys.
      unfold formDataToObject. rewrite (fold_set_get es _ Hk).
      apply last_value_None. auto.
  - split; [tauto|]. intros [Hes Hk]. exfalso.
    apply get_None_keys in Hout. unfold formDataToObject in Hout.
    rewrite (fold_set_get es _ Hk) in Hout.
    apply last_value_None in Hout. tauto.
Qed.

Lemma fold_set_skips_proto (es : list (jsstring * jsstring)) (o : JsObject.t) :
  fold_left (fun acc '(key, value) => JsObject.set acc key value) es o
  = fold_left (fun acc '(key, value) => define_property acc key value)
      (filter (fun entry => negb (JsString.eqb (fst entry) proto_key)) es) o.
Proof.
  revert o. induction es as [|[k v] es IH]; intros o; [reflexivity|].
  cbn [fold_left filter fst]. rewrite set_define_property.
  destruct (JsString.eqb k proto_key); cbn [negb fold_left]; apply IH.
Qed.

Lemma filter_no_proto (es : list (jsstring * jsstring)) :
  ~ In proto_key (map fst es) ->
  filter (fun entry => negb (JsString.eqb (fst entry) proto_key)) es = es.
Proof.
  induction es as [|[k v] es IH]; intros H; [reflexivity|].
  cbn [filter fst map] in *.
  destruct (JsString.eqb k proto_key) eqn:P.
  - apply jsstring_eqb_eq in P. subst k. exfalso. apply H. left. reflexivity.
  - cbn [negb]. f_equal. apply IH. intros Hc. apply H. right. exact Hc.
Qed.

(** X6: [formDataToObject] (classes.js) and [formDataToJSON] (utils.js)
    build the same object from entries none of which is named [__proto__];
    in general the first builds what the second builds from the entries
    not so named, and such a name is a key of the second's object and of
    none of the first's. *)
Theorem formDataToObject_formDataToJSON (es : list (jsstring * jsstring)) :
  formDataToObject es
  = formDataToJSON
      (filter (fun entry => negb (JsString.eqb (fst entry) proto_key)) es)
  /\ (~ In proto_key (map fst es) -> formDataToObject es = formDataToJSON es)
  /\ (In proto_key (map fst es) ->
      In proto_key (JsObject.keys (formDataToJSON es))
      /\ ~ In proto_key (JsObject.keys (formDataToObject es))).
Proof.
  assert (E : formDataToObject es
              = formDataToJSON
                  (filter (fun entry =>
                             negb (JsString.eqb (fst entry) proto_key)) es))
    by apply fold_set_skips_proto.
  split; [exact E | split].
  - intros H. rewrite E, (filter_no_proto es H). reflexivity.
  - intros H. split.
    + destruct (in_dec (list_eq_dec N.eq_dec) proto_key
                  (JsObject.keys (formDataToJSON es))) as [Hin | Hout]; auto.
      exfalso. apply get_None_keys in Hout. unfold formDataToJSON in Hout.
      rewrite fold_define_get in Hout. apply last_value_None in Hout. tauto.
    + apply get_None_keys. rewrite E. unfold formDataToJSON.
      rewrite fold_define_get. apply last_value_None. split; auto.
      intros Hc. apply in_map_iff in Hc. destruct Hc as ([k v] & Ek & Hf).
      apply filter_In in Hf. simpl in *. subst k.
      rewrite jsstring_eqb_refl in Hf. destruct Hf. discriminate.
Qed.

Lemma formDataToObject_formDataToJSON_witness :
  let es := [(lit "email", lit "a@b.com"); (lit "__proto__", lit "x")] in
  In proto_key (JsObject.keys (formDataToJSON es))
  /\ ~ In proto_key (JsObject.keys (formDataToObject es)).
Proof.
  intros es.
  apply (proj2 (proj2 (formDataToObject_formDataToJSON es))).
  right. left. reflexivity.
Defined.

(** X7: the errors of the validator on the object [getFormData] builds
    name each field at most once, also when the form has several controls
    of one name. *)
Theorem errors_of_form_data_distinct
    (es : list (jsstring * jsstring)) (R : list jsstring) :
  NoDup (errors (validateSubmission (formDataToObject es) R)).
Proof.
  rewrite errors_blank_keys.
  apply (keys_filter_distinct blank (JsObject.entries (formDataToObject es))).
  apply (fold_set_well_formed es). split; [constructor | reflexivity].
Qed.

(** ** Every run of the workflow *)

Lemma handleFormSubmit_rejected
    (net : Network) (u : jsstring) (opts : Options) (w : World) :
  not_valid (option_map checkValidity (form (formHandler w))) = true ->
  handleFormSubmit net u opts w = (Normal false, world_invalid w).
Proof.
  intros Hn. unfold handleFormSubmit.
  step (isValid_effect w). rewrite Hn.
  step (focusInvalidField_effect (logged CallIsValid w)).
  match goal with
  | |- bind _ _ ?w1 = _ => step (addValidationClass_effect w1)
  end.
  unfold world_invalid.
  destruct w as [[fo] rh ae ck tm rq co cl wr]; simpl.
  destruct (getInvalidFields fo) as [|[i | j] rest]; reflexivity.
Qed.

Lemma handleFormSubmit_run
    (net : Network) (u : jsstring) (opts : Options) (w : World) :
  handleFormSubmit net u opts w
  = (Normal (fst (run_outcome net u opts w)), snd (run_outcome net u opts w)).
Proof.
  unfold run_outcome.
  destruct (form (formHandler w)) as [f|] eqn:Hf.
  - destruct (checkValidity f) eqn:Hc.
    + assert (Hv : eval FormHandler.isValid w = Normal (Some true)).
      { unfold eval. rewrite isValid_effect, Hf. simpl. rewrite Hc.
        reflexivity. }
      assert (Hd : eval FormHandler.getFormData w
                   = Normal (formDataToObject (FormData_entries f))).
      { unfold eval. rewrite (getFormData_effect w Hf). reflexivity. }
      rewrite (handleFormSubmit_valid_form net u opts w Hv Hd).
      cbv zeta.
      destruct (shouldProceed
                  (validateSubmission (formDataToObject (FormData_entries f))
                     (option_default [] (requiredFields opts)))) eqn:Hgo.
      * change (negb true) with false. cbv iota.
        match goal with
        | |- context [bind (submitFormToAPI net ?fd u) _ ?w1] =>
            step (submitFormToAPI_effect net fd u w1)
        end.
        match goal with
        | |- context [bind (if success ?r then _ else _) _ ?w1] =>
            assert (Hshow :
                      (if success r
                       then ResponseHandler.showSuccess (message r)
                       else ResponseHandler.showError (message r)) w1
                      = (Normal tt,
                         display_in (message r) (result_kind r)
                           (logged (result_call r) w1)))
              by (unfold result_kind, result_call; destruct (success r);
                  [apply showSuccess_effect | apply showError_effect]);
            step Hshow
        end.
        match goal with
        | |- context [bind FormHandler.reset _ ?w1] => step (reset_effect w1)
        end.
        match goal with
        | |- context [bind (ResponseHandler.hideAfter (Some ?d)) _ ?w1] =>
            step (hideAfter_effect d w1)
        end.
        reflexivity.
      * change (negb false) with true. cbv iota.
        match goal with
        | |- context [bind (ResponseHandler.showError ?m) _ ?w1] =>
            step (showError_effect m w1)
        end.
        match goal with
        | |- context [bind (ResponseHandler.hideAfter (Some ?d)) _ ?w1] =>
            step (hideAfter_effect d w1)
        end.
        reflexivity.
    + apply handleFormSubmit_rejected. rewrite Hf. simpl. rewrite Hc.
      reflexivity.
  - apply handleFormSubmit_rejected. rewrite Hf. reflexivity.
Qed.

Lemma api_result_success (net : Network) (data : JsObject.t) (u : jsstring) :
  success (api_result net data u) = true
  <-> exists r b,
        respond net (api_request data u) = inr r
        /\ resp_status r = 200 /\ resp_json r = inr b.
Proof.
  unfold api_result.
  destruct (respond net (api_request data u)) as [e | r].
  - simpl. split; [discriminate | intros (r & b & H & _); discriminate].
  - destruct (resp_json r) as [e | b] eqn:J; simpl.
    + split; [discriminate|]. intros (r' & b' & [= <-] & _ & H).
      rewrite J in H. discriminate.
    + rewrite N.eqb_eq. split.
      * intros H. exists r, b. auto.
      * intros (r' & b' & [= <-] & H & _). exact H.
Qed.

(** X10: [handleFormSubmit] returns true only if the form is there and
    valid, the object built from its entries (the last value of each name,
    [__proto__] left out) has no blank value, and the server answers with
    status 200 and a body that parses as JSON. *)
Theorem handleFormSubmit_true_only_if
    (net : Network) (u : jsstring) (opts : Options) (w : World) :
  eval (handleFormSubmit net u opts) w = Normal true ->
  exists f r b,
    form (formHandler w) = Some f
    /\ checkValidity f = true
    /\ shouldProceed
         (validateSubmission (formDataToObject (FormData_entries f))
            (option_default [] (requiredFields opts))) = true
    /\ forallb (fun entry => negb (is_empty (trim (snd entry))))
         (JsObject.entries (formDataToObject (FormData_entries f))) = true
    /\ respond net (api_request (formDataToObject (FormData_entries f)) u)
       = inr r
    /\ resp_status r = 200
    /\ resp_json r = inr b.
Proof.
  unfold eval. rewrite handleFormSubmit_run. unfold run_outcome.
  destruct (form (formHandler w)) as [f|]; [|discriminate].
  destruct (checkValidity f) eqn:Hc; [|discriminate].
  destruct (shouldProceed _) eqn:Hgo; cbn [fst snd]; [|discriminate].
  intros [= H]. apply api_result_success in H.
  destruct H as (r & b & H1 & H2 & H3). exists f, r, b.
  repeat split; try assumption.
  rewrite <- shouldProceed_no_blank with (R := option_default [] (requiredFields opts)).
  exact Hgo.
Qed.

Lemma handleFormSubmit_true_only_if_witness :
  let net := answering 200 (JObject []) in
  let w := sample_world (Some (sample_form (lit "a@b.com") (lit "hi"))) None in
  exists f r b,
    form (formHandler w) = Some f
    /\ checkValidity f = true
    /\ shouldProceed
         (validateSubmission (formDataToObject (FormData_entries f)) []) = true
    /\ forallb (fun entry => negb (is_empty (trim (snd entry))))
         (JsObject.entries (formDataToObject (FormData_entries f))) = true
    /\ respond net (api_request (formDataToObject (FormData_entries f)) sample_url)
       = inr r
    /\ resp_status r = 200
    /\ resp_json r = inr b.
Proof.
  intros net w.
  apply (handleFormSubmit_true_only_if net sample_url no_options w).
  reflexivity.
Defined.

(** X11: a run of [handleFormSubmit] sends at most one request and
    schedules at most one hide, and keeps the requests and timers that were
    there.  The request goes to the given URL by POST with the two JSON
    headers, and its body encodes the form's values as typed, not as
    trimmed for validation; the timer has the configured delay. *)
Theorem handleFormSubmit_one_request_one_timer
    (net : Network) (u : jsstring) (opts : Options) (w : World) :
  let w' := exec (handleFormSubmit net u opts) w in
  (requests w' = requests w
   \/ exists f,
        form (formHandler w) = Some f
        /\ requests w'
           = requests w
             ++ [{| url := u;
                    payload :=
                      {| method := lit "POST";
                         headers :=
                           [ (lit "Content-Type", lit "application/json");
                             (lit "Accept", lit "application/json") ];
                         body :=
                           Json.stringify
                             (formDataToObject (FormData_entries f)) |} |}])
  /\ (timers w' = timers w
      \/ timers w'
         = timers w
           ++ [{| set_at := clock w';
                  delay := option_default 5000 (resetDelay opts) |}]).
Proof.
  unfold exec. rewrite handleFormSubmit_run. unfold run_outcome.
  destruct (form (formHandler w)) as [f|] eqn:Hf.
  - destruct (checkValidity f).
    + destruct (shouldProceed _); simpl.
      * split; [right; exists f; split; auto | right].
        -- unfold world_submitted, after_submit.
           destruct (error _), w; reflexivity.
        -- unfold world_submitted, after_submit.
           destruct (error _), w; reflexivity.
      * split; [left | right]; destruct w; reflexivity.
    + simpl. unfold world_invalid.
      split; left; destruct w as [[fo] rh ae ck tm rq co cl wr];
        simpl; destruct (getInvalidFields fo) as [|[i | j] rest]; reflexivity.
  - simpl. unfold world_invalid.
    split; left; destruct w as [[fo] rh ae ck tm rq co cl wr];
      simpl; destruct (getInvalidFields fo) as [|[i | j] rest]; reflexivity.
Qed.

(** ** Class lists *)

Lemma contains_remove (x c : jsstring) (l : ClassList.t) :
  ClassList.contains (ClassList.remove x l) c
  = negb (JsString.eqb x c) && ClassList.contains l c.
Proof.
  unfold ClassList.contains, ClassList.remove, includes.
  induction l as [|y l IH]; simpl.
  - rewrite andb_false_r. reflexivity.
  - destruct (JsString.eqb x y) eqn:Exy; simpl; rewrite IH.
    + destruct (JsString.eqb c y) eqn:Ecy; simpl; auto.
      apply jsstring_eqb_eq in Exy, Ecy. subst.
      rewrite jsstring_eqb_refl. reflexivity.
    + destruct (JsString.eqb c y) eqn:Ecy; simpl; auto.
      apply jsstring_eqb_eq in Ecy. subst. rewrite Exy. reflexivity.
Qed.

Lemma contains_add (x c : jsstring) (l : ClassList.t) :
  ClassList.contains (ClassList.add x l) c
  = JsString.eqb c x || ClassList.contains l c.
Proof.
  unfold ClassList.add.
  destruct (ClassList.contains l x) eqn:H.
  - destruct (JsString.eqb c x) eqn:E; auto.
    apply jsstring_eqb_eq in E. subst. exact H.
  - unfold ClassList.contains, includes. rewrite existsb_app. simpl.
    rewrite orb_false_r. apply orb_comm.
Qed.

Lemma NoDup_remove (x : jsstring) (l : ClassList.t) :
  NoDup l -> NoDup (ClassList.remove x l).
Proof. apply NoDup_filter. Qed.

Lemma NoDup_add (x : jsstring) (l : ClassList.t) :
  NoDup l -> NoDup (ClassList.add x l).
Proof.
  intros H. unfold ClassList.add.
  destruct (ClassList.contains l x) eqn:C; auto.
  apply NoDup_app; auto.
  - constructor; [tauto | constructor].
  - intros y Hy [<- | []].
    apply includes_In in Hy. unfold ClassList.contains in C. congruence.
Qed.

Lemma remove_add (x : jsstring) (l : ClassList.t) :
  ClassList.remove x (ClassList.add x l) = ClassList.remove x l.
Proof.
  unfold ClassList.add. destruct (ClassList.contains l x); auto.
  unfold ClassList.remove. rewrite filter_app. simpl.
  rewrite jsstring_eqb_refl. simpl. apply app_nil_r.
Qed.

Lemma add_add (x : jsstring) (l : ClassList.t) :
  ClassList.add x (ClassList.add x l) = ClassList.add x l.
Proof.
  unfold ClassList.add at 1. rewrite contains_add, jsstring_eqb_refl.
  reflexivity.
Qed.

Lemma remove_remove (x : jsstring) (l : ClassList.t) :
  ClassList.remove x (ClassList.remove x l) = ClassList.remove x l.
Proof.
  unfold ClassList.remove. induction l as [|y l IH]; simpl; auto.
  destruct (JsString.eqb x y) eqn:E; simpl; auto.
  rewrite E. simpl. rewrite IH. reflexivity.
Qed.

(** X12: whatever classes the result element had, after a message is
    displayed with status loading, success or error it has the colour
    class of that status and neither of the other two colour classes;
    every other class is there exactly if it was before; and no class is
    entered twice. *)
Theorem status_colours_exclusive (l : ClassList.t) (c : jsstring) :
  (forall e m s,
      classList (ResponseHandler.show_in e m s) = recoloured s (classList e))
  /\ ClassList.contains (recoloured (lit "loading") l) c
  = (if JsString.eqb c gray then true
     else if JsString.eqb c green || JsString.eqb c red then false
     else ClassList.contains l c)
  /\ ClassList.contains (recoloured (lit "success") l) c
     = (if JsString.eqb c green then true
        else if JsString.eqb c gray || JsString.eqb c red then false
        else ClassList.contains l c)
  /\ ClassList.contains (recoloured (lit "error") l) c
     = (if JsString.eqb c red then true
        else if JsString.eqb c gray || JsString.eqb c green then false
        else ClassList.contains l c)
  /\ (NoDup l ->
      NoDup (recoloured (lit "loading") l)
      /\ NoDup (recoloured (lit "success") l)
      /\ NoDup (recoloured (lit "error") l)).
Proof.
  assert (Hsym : forall a b, JsString.eqb a b = JsString.eqb b a).
  { intros a b. destruct (JsString.eqb a b) eqn:E.
    - apply jsstring_eqb_eq in E. subst. symmetry. apply jsstring_eqb_refl.
    - symmetry. apply jsstring_eqb_sym_false. exact E. }
  unfold recoloured, updateElementClasses.
  change (getClassConfig (lit "loading"))
    with {| toRemove := [green; red]; toAdd := [gray] |}.
  change (getClassConfig (lit "success"))
    with {| toRemove := [gray; red]; toAdd := [green] |}.
  change (getClassConfig (lit "error"))
    with {| toRemove := [gray; green]; toAdd := [red] |}.
  cbn [toRemove toAdd fold_left].
  split; [reflexivity|].
  repeat split;
    try (rewrite contains_add, !contains_remove;
         rewrite ?(Hsym gray c), ?(Hsym green c), ?(Hsym red c);
         destruct (JsString.eqb c gray), (JsString.eqb c green),
           (JsString.eqb c red); reflexivity);
    apply NoDup_add, NoDup_remove, NoDup_remove; assumption.
Qed.

Lemma status_colours_exclusive_witness :
  NoDup (recoloured (lit "error") [lit "result"; green]).
Proof.
  apply (proj2 (proj2 (proj2 (proj2
           (status_colours_exclusive [lit "result"; green] []))))).
  constructor; [simpl; intros [E | []]; discriminate E|].
  constructor; [simpl; tauto | constructor].
Defined.

(** ** Reading the history back *)

Lemma getMessageHistory_value (k : option jsstring) (w : World) :
  ResponseHandler.getMessageHistory k w
  = (Normal (map content
               (filter (fun msg => selects k (msg_status msg)) (history w))),
     w).
Proof. reflexivity. Qed.

Lemma getLastMessage_value (w : World) :
  ResponseHandler.getLastMessage w
  = (Normal (last (map Some (history w)) None), w).
Proof. reflexivity. Qed.

Lemma history_display_in (m : json) (s : jsstring) (w : World) :
  history (display_in m s w)
  = history w
    ++ match resultElement (responseHandler w) with
       | Some _ =>
           [{| content := m; msg_status := s; timestamp := clock w |}]
       | None => []
       end.
Proof.
  destruct w as [fh [[e|] h] ae ck tm rq co cl wr]; unfold history; simpl; auto.
  rewrite app_nil_r. reflexivity.
Qed.

(** X13: [getMessageHistory(k)] after [displayMessage(m, s)] is what it
    was before, followed by m when the result element is present and k
    selects the status s (k left out or empty, or equal to s); in
    particular [getMessageHistory("error")] grows by exactly the messages
    displayed as errors.  Reading the history changes nothing. *)
Theorem getMessageHistory_after_displayMessage
    (k : option jsstring) (m : json) (s : jsstring) (w : World) :
  let before :=
    map content (filter (fun msg => selects k (msg_status msg)) (history w)) in
  ResponseHandler.getMessageHistory k w = (Normal before, w)
  /\ eval (ResponseHandler.getMessageHistory k)
          (exec (ResponseHandler.displayMessage m s) w)
     = Normal
         (before
          ++ match resultElement (responseHandler w) with
             | Some _ => if selects k s then [m] else []
             | None => []
             end)
  /\ eval (ResponseHandler.getMessageHistory None) w
     = Normal (map content (history w))
  /\ eval (ResponseHandler.getMessageHistory (Some [])) w
     = Normal (map content (history w)).
Proof.
  cbv zeta. unfold eval, exec.
  rewrite displayMessage_effect, !getMessageHistory_value.
  cbn [fst snd]. rewrite history_display_in.
  split; [reflexivity | split; [|split]].
  - f_equal. rewrite filter_app, map_app. f_equal.
    destruct (resultElement (responseHandler w)); [|reflexivity].
    cbn [filter msg_status]. destruct (selects k s); reflexivity.
  - f_equal. f_equal.
    induction (history w) as [|x h IH]; simpl; [reflexivity|].
    f_equal. exact IH.
  - f_equal. f_equal.
    induction (history w) as [|x h IH]; simpl; [reflexivity|].
    f_equal. exact IH.
Qed.

(** X14: [getLastMessage()] returns null exactly when the history is
    empty; after [displayMessage(m, s)] on a handler with its element it
    returns the message just recorded, with content m, status s and the
    time of the call, and on a handler without element what it returned
    before. *)
Theorem getLastMessage_after_displayMessage
    (m : json) (s : jsstring) (w : World) :
  (eval ResponseHandler.getLastMessage w = Normal None <-> history w = [])
  /\ eval ResponseHandler.getLastMessage
          (exec (ResponseHandler.displayMessage m s) w)
     = match resultElement (responseHandler w) with
       | Some _ =>
           Normal (Some {| content := m; msg_status := s;
                           timestamp := clock w |})
       | None => eval ResponseHandler.getLastMessage w
       end.
Proof.
  unfold eval, exec.
  rewrite displayMessage_effect, !getLastMessage_value. cbn [fst snd].
  split.
  - destruct (history w) as [|x h] using rev_ind.
    + split; reflexivity.
    + rewrite map_app. cbn [map]. rewrite last_last.
      split; [discriminate|].
      intros H. destruct h; discriminate.
  - rewrite history_display_in.
    destruct (resultElement (responseHandler w)).
    + rewrite map_app. cbn [map]. rewrite last_last. reflexivity.
    + rewrite app_nil_r. reflexivity.
Qed.

Lemma getLastMessage_after_displayMessage_witness :
  eval ResponseHandler.getLastMessage (sample_world None None) = Normal None.
Proof.
  apply (proj1 (getLastMessage_after_displayMessage JNull []
                  (sample_world None None))).
  reflexivity.
Defined.

(** ** Hiding and showing *)


(** ** The form handler *)

Lemma form_after_reset (w : World) :
  form (formHandler (exec FormHandler.reset w))
  = option_map cleared (form (formHandler w)).
Proof. unfold exec. rewrite reset_effect. destruct w; reflexivity. Qed.

Lemma form_after_addValidationClass (w : World) :
  form (formHandler (exec FormHandler.addValidationClass w))
  = option_map was_validated (form (formHandler w)).
Proof.
  unfold exec. rewrite addValidationClass_effect. destruct w; reflexivity.
Qed.

Lemma cleared_cleared (f : Form) : cleared (cleared f) = cleared f.
Proof.
  unfold cleared, form_reset; simpl. f_equal.
  - rewrite map_map. reflexivity.
  - apply remove_remove.
Qed.

Lemma cleared_was_validated (f : Form) : cleared (was_validated f) = cleared f.
Proof.
  unfold cleared, was_validated, form_reset; simpl. f_equal.
  apply remove_add.
Qed.

(** X16: after [FormHandler.reset()] every control of the form has its
    default value, under the same name and in the same place, and the form
    is not marked [was-validated]; resetting again changes nothing, and a
    reset undoes [addValidationClass()]. *)
Theorem reset_restores_defaults (w : World) :
  let before := form (formHandler w) in
  let after := form (formHandler (exec FormHandler.reset w)) in
  option_map FormData_entries after
  = option_map (fun f => map (fun c => (c_name c, c_default c)) (controls f))
      before
  /\ option_map
       (fun f => ClassList.contains (form_classList f) (lit "was-validated"))
       after
     = option_map (fun _ => false) before
  /\ form (formHandler (exec FormHandler.reset (exec FormHandler.reset w)))
     = after
  /\ form (formHandler
             (exec FormHandler.reset (exec FormHandler.addValidationClass w)))
     = after.
Proof.
  cbv zeta.
  rewrite !form_after_reset, form_after_addValidationClass.
  destruct (form (formHandler w)) as [f|]; cbn [option_map];
    [|repeat split].
  split; [|split; [|split]].
  - unfold cleared, form_reset, FormData_entries; simpl.
    rewrite map_map. reflexivity.
  - f_equal. unfold cleared; cbn [form_classList].
    rewrite contains_remove, jsstring_eqb_refl. reflexivity.
  - rewrite cleared_cleared. reflexivity.
  - rewrite cleared_was_validated. reflexivity.
Qed.

(** X17: after [addValidationClass()] the form, when there is one, is
    marked [was-validated] and its controls are as they were; every other
    class is there exactly if it was before; a second call changes
    nothing. *)
Theorem addValidationClass_marks_once (w : World) (c : jsstring) :
  let before := form (formHandler w) in
  let after := form (formHandler (exec FormHandler.addValidationClass w)) in
  option_map
    (fun f => ClassList.contains (form_classList f) (lit "was-validated"))
    after
  = option_map (fun _ => true) before
  /\ option_map (fun f => ClassList.contains (form_classList f) c) after
     = option_map
         (fun f => JsString.eqb c (lit "was-validated")
                   || ClassList.contains (form_classList f) c)
         before
  /\ option_map controls after = option_map controls before
  /\ form (formHandler
             (exec FormHandler.addValidationClass
                (exec FormHandler.addValidationClass w)))
     = after.
Proof.
  cbv zeta. rewrite !form_after_addValidationClass.
  destruct (form (formHandler w)) as [f|]; cbn [option_map];
    [|repeat split].
  split; [|split; [|split]].
  - f_equal. unfold was_validated; cbn [form_classList].
    rewrite contains_add, jsstring_eqb_refl. reflexivity.
  - f_equal. unfold was_validated; cbn [form_classList].
    apply contains_add.
  - reflexivity.
  - unfold was_validated; cbn [form_classList controls].
    rewrite add_add. reflexivity.
Qed.

(** ** The API client on any network *)

Lemma truthy_or_else (a : option json) (s : jsstring) :
  is_empty s = false -> truthy (or_else a (JString s)) = true.
Proof.
  intros Hs. unfold or_else.
  destruct a as [v|]; [destruct (truthy v) eqn:T; auto|];
    simpl; rewrite Hs; reflexivity.
Qed.

(** X18: whatever the network does, [submitFormToAPI] returns normally,
    after exactly one request and touching neither handler nor the timers.
    Its result either has a status, no error and success true exactly for
    status 200, or has an error, no status, null data and success false;
    and its message is never empty or otherwise falsy. *)
Theorem submitFormToAPI_result_shape
    (net : Network) (fd : JsObject.t) (u : jsstring) (w : World) :
  exists r,
    eval (submitFormToAPI net fd u) w = Normal r
    /\ ((exists s, status r = Some s /\ error r = None
                   /\ success r = (s =? 200))
        \/ (exists e, error r = Some e /\ status r = None
                      /\ data r = JNull /\ success r = false))
    /\ truthy (message r) = true
    /\ requests (exec (submitFormToAPI net fd u) w)
       = requests w ++ [api_request fd u]
    /\ responseHandler (exec (submitFormToAPI net fd u) w)
       = responseHandler w
    /\ formHandler (exec (submitFormToAPI net fd u) w) = formHandler w
    /\ timers (exec (submitFormToAPI net fd u) w) = timers w.
Proof.
  exists (api_result net fd u).
  unfold eval, exec. rewrite submitFormToAPI_effect. cbn [fst snd].
  split; [reflexivity|]. split; [|split].
  - unfold api_result.
    destruct (respond net (api_request fd u)) as [e | r].
    + right. exists e. repeat split.
    + destruct (resp_json r) as [e | b].
      * right. exists e. repeat split.
      * left. exists (resp_status r). repeat split.
  - unfold api_result.
    destruct (respond net (api_request fd u)) as [e | r];
      [|destruct (resp_json r) as [e | b]];
      apply truthy_or_else; reflexivity.
  - unfold after_submit.
    destruct (error (api_result net fd u)), w; repeat split.
Qed.

(** ** The request body *)

Lemma hex_digit_printable (n : N) : 0x20 <= Json.hex_digit n.
Proof. unfold Json.hex_digit. destruct (n <? 10); lia. Qed.

Lemma escape_unit_printable (c : code_unit) :
  Forall (fun x => 0x20 <= x) (Json.escape_unit c).
Proof.
  unfold Json.escape_unit, Json.unicode_escape.
  repeat match goal with
         | |- context [if ?b then _ else _] => destruct b eqn:?
         end;
    simpl; repeat constructor; try lia; try apply hex_digit_printable.
  match goal with
  | H : (c <? 32) || _ || _ = false |- _ =>
      apply orb_false_iff in H; destruct H as [H _];
      apply orb_false_iff in H; destruct H as [H _];
      apply N.ltb_ge in H; exact H
  end.
Qed.

Lemma quote_units_printable (s : jsstring) :
  Forall (fun x => 0x20 <= x) (Json.quote_units s)
  /\ forall c, Forall (fun x => 0x20 <= x) (Json.quote_units (c :: s)).
Proof.
  induction s as [|d r [IH1 IH2]].
  - split; [constructor | intros c; apply escape_unit_printable].
  - split; [apply IH2|]. intros c.
    change (Json.quote_units (c :: d :: r))
      with (if Json.is_high_surrogate c && Json.is_low_surrogate d
            then c :: d :: Json.quote_units r
            else Json.escape_unit c ++ Json.quote_units (d :: r)).
    destruct (Json.is_high_surrogate c && Json.is_low_surrogate d) eqn:S.
    + apply andb_true_iff in S. destruct S as [Hc Hd].
      unfold Json.is_high_surrogate, Json.is_low_surrogate in *.
      apply andb_true_iff in Hc, Hd.
      destruct Hc as [Hc _], Hd as [Hd _].
      apply N.leb_le in Hc, Hd.
      constructor; [lia|]. constructor; [lia|]. exact IH1.
    + apply Forall_app. split; [apply escape_unit_printable | apply IH2].
Qed.

Lemma join_printable (sep : jsstring) (xs : list jsstring) :
  Forall (fun x => 0x20 <= x) sep ->
  Forall (Forall (fun x => 0x20 <= x)) xs ->
  Forall (fun x => 0x20 <= x) (join sep xs).
Proof.
  intros Hsep. induction xs as [|x xs IH]; intros H.
  - constructor.
  - inversion H as [|? ? Hx Hxs]; subst.
    destruct xs as [|y ys].
    + exact Hx.
    + change (join sep (x :: y :: ys)) with (x ++ sep ++ join sep (y :: ys)).
      rewrite !Forall_app. auto.
Qed.

Lemma quote_printable (s : jsstring) :
  Forall (fun x => 0x20 <= x) (Json.quote s).
Proof.
  unfold Json.quote.
  apply Forall_app. split; [constructor; [lia | constructor]|].
  apply Forall_app. split; [apply quote_units_printable|].
  constructor; [lia | constructor].
Qed.

Lemma member_printable (kv : jsstring * jsstring) :
  Forall (fun x => 0x20 <= x) (Json.member kv).
Proof.
  unfold Json.member.
  apply Forall_app. split; [apply quote_printable|].
  apply Forall_app. split; [constructor; [lia | constructor]|].
  apply quote_printable.
Qed.

(** X19: the body [createRequestPayload] gives a request is an object
    literal, from an opening to a closing brace, without any control
    character (a code unit below 0x20), whatever the names and values of
    the form hold; the method is POST unless one is given, and the headers
    announce and accept JSON. *)
Theorem createRequestPayload_body_printable
    (data : JsObject.t) (m : option jsstring) :
  let p := createRequestPayload data m in
  Forall (fun x => 0x20 <= x) (body p)
  /\ (exists inner, body p = [0x7B] ++ inner ++ [0x7D])
  /\ method p = option_default (lit "POST") m
  /\ headers p
     = [ (lit "Content-Type", lit "application/json");
         (lit "Accept", lit "application/json") ].
Proof.
  cbv zeta. unfold createRequestPayload; cbn [body method headers].
  split; [|split; [|split]].
  - unfold Json.stringify.
    apply Forall_app. split; [repeat constructor; lia|].
    apply Forall_app. split; [|repeat constructor; lia].
    apply join_printable; [repeat constructor; lia|].
    unfold JsObject.entries.
    induction data as [|kv data IH]; simpl; constructor; auto.
    apply member_printable.
  - eexists. reflexivity.
  - destruct m; reflexivity.
  - reflexivity.
Qed.

(** ** Nothing sent is unsent, nothing scheduled is cancelled *)

Section Appends.

Context {B : Type} (proj : World -> list B).

Lemma appends_ret {A} (a : A) : appends proj (ret a).
Proof. intros w. exists []. rewrite app_nil_r. reflexivity. Qed.

Lemma appends_throw {A} (e : js_error) : appends proj (@throw A e).
Proof. intros w. exists []. rewrite app_nil_r. reflexivity. Qed.

Lemma appends_gets {A} (f : World -> A) : appends proj (gets f).
Proof. intros w. exists []. rewrite app_nil_r. reflexivity. Qed.

Lemma appends_modify (f : World -> World) :
  (forall w, exists added, proj (f w) = proj w ++ added) ->
  appends proj (modify f).
Proof. intros H w. exact (H w). Qed.

Lemma appends_bind {A C} (m : Js A) (k : A -> Js C) :
  appends proj m -> (forall a, appends proj (k a)) -> appends proj (bind m k).
Proof.
  intros Hm Hk w. unfold exec, bind.
  destruct (Hm w) as (a1 & H1). unfold exec in H1.
  destruct (m w) as [[a | e] w1]; simpl in *.
  - destruct (Hk a w1) as (a2 & H2). unfold exec in H2.
    exists (a1 ++ a2). rewrite H2, H1, app_assoc. reflexivity.
  - exists a1. exact H1.
Qed.

Lemma appends_try_catch {A} (m : Js A) (h : js_error -> Js A) :
  appends proj m -> (forall e, appends proj (h e)) ->
  appends proj (try_catch m h).
Proof.
  intros Hm Hh w. unfold exec, try_catch.
  destruct (Hm w) as (a1 & H1). unfold exec in H1.
  destruct (m w) as [[a | e] w1]; simpl in *.
  - exists a1. exact H1.
  - destruct (Hh e w1) as (a2 & H2). unfold exec in H2.
    exists (a1 ++ a2). rewrite H2, H1, app_assoc. reflexivity.
Qed.

End Appends.

(** Goes through a computation down to its [modify] steps, each of which
    leaves the list alone or adds to its end. *)
Ltac appends_steps :=
  cbv zeta;
  repeat first
    [ apply appends_ret
    | apply appends_throw
    | apply appends_gets
    | apply appends_modify;
      let w := fresh "w" in
      intros w; destruct w; simpl;
      first [ exists []; rewrite app_nil_r; reflexivity
            | eexists; reflexivity ]
    | apply appends_bind; [| intros ?]
    | apply appends_try_catch; [| intros ?]
    | match goal with
      | |- appends _ (match ?x with _ => _ end) => destruct x
      end ].

Ltac appends_unfold :=
  unfold on_submit, handleFormSubmit, submitFormToAPI, fetch, Response_json,
    console_error,
    FormHandler.isValid, FormHandler.reset, FormHandler.addValidationClass,
    FormHandler.focusInvalidField, FormHandler.getFormData,
    FormHandler.getForm, FormHandler.set_form, FormHandler.Element_focus,
    ResponseHandler.showLoading, ResponseHandler.showSuccess,
    ResponseHandler.showError, ResponseHandler.displayMessage,
    ResponseHandler.getMessageHistory, ResponseHandler.getLastMessage,
    ResponseHandler.hideAfter, ResponseHandler.hide_callback,
    ResponseHandler.set_resultElement, ResponseHandler.write,
    createMessage, called.

Lemma perform_appends_timers (net : Network) (op : Operation) :
  appends timers (fun w => (Normal tt, perform net op w)).
Proof.
  assert (H : forall A (m : Js A),
            appends timers m ->
            appends timers (fun w => (Normal tt, exec m w)))
    by (intros A m Hm w; exact (Hm w)).
  destruct op; unfold perform; apply H; appends_unfold; appends_steps.
Qed.

Lemma perform_appends_requests (net : Network) (op : Operation) :
  appends requests (fun w => (Normal tt, perform net op w)).
Proof.
  assert (H : forall A (m : Js A),
            appends requests m ->
            appends requests (fun w => (Normal tt, exec m w)))
    by (intros A m Hm w; exact (Hm w)).
  destruct op; unfold perform; apply H; appends_unfold; appends_steps.
Qed.

Lemma perform_all_appends {B} (proj : World -> list B) (net : Network) :
  (forall op, appends proj (fun w => (Normal tt, perform net op w))) ->
  forall ops w, exists added, proj (perform_all net ops w) = proj w ++ added.
Proof.
  intros H ops. unfold perform_all.
  induction ops as [|op ops IH]; intros w; simpl.
  - exists []. rewrite app_nil_r. reflexivity.
  - destruct (IH (perform net op w)) as (a2 & H2).
    destruct (H op w) as (a1 & H1). unfold exec in H1; simpl in H1.
    exists (a1 ++ a2). rewrite H2, H1, app_assoc. reflexivity.
Qed.

(** X20: whatever is done on the page, in any order (methods of the two
    handlers, runs of the workflow, submit events, timers firing), the
    requests already sent and the hides already scheduled stay as they are,
    in their order: a hide is never cancelled nor rescheduled, new ones are
    added at the end. *)
Theorem timers_and_requests_only_grow
    (net : Network) (ops : list Operation) (w : World) :
  (exists added, timers (perform_all net ops w) = timers w ++ added)
  /\ (exists added, requests (perform_all net ops w) = requests w ++ added).
Proof.
  split.
  - apply perform_all_appends. apply perform_appends_timers.
  - apply perform_all_appends. apply perform_appends_requests.
Qed.

(** ** The remaining helpers *)

Lemma remove_absent (x : jsstring) (l : ClassList.t) :
  ClassList.contains l x = false -> ClassList.remove x l = l.
Proof.
  unfold ClassList.contains, ClassList.remove, includes.
  induction l as [|y l IH]; simpl; auto.
  intros H. apply orb_false_iff in H. destruct H as [H1 H2].
  rewrite H1. simpl. rewrite (IH H2). reflexivity.
Qed.

Lemma remove_listed_only (l : ClassList.t) (cs : list jsstring) :
  forall l',
    (forall c, ClassList.contains l' c = true -> ClassList.contains l c = true) ->
    fold_left (fun acc cls => ClassList.remove cls acc)
      (getClassesToRemove l cs) l'
    = fold_left (fun acc cls => ClassList.remove cls acc) cs l'.
Proof.
  unfold getClassesToRemove.
  induction cs as [|x cs IH]; intros l' Hsub; simpl; auto.
  destruct (ClassList.contains l x) eqn:C; simpl.
  - apply IH. intros c Hc. rewrite contains_remove in Hc.
    apply andb_true_iff in Hc. apply Hsub. tauto.
  - rewrite (remove_absent x l').
    + apply IH. exact Hsub.
    + destruct (ClassList.contains l' x) eqn:C'; auto.
      apply Hsub in C'. congruence.
Qed.

(** X21: [getClassesToRemove] returns the listed classes that the class
    list has, in the order of the listing and as often as they are listed;
    removing just these from the list leaves what removing all the listed
    classes leaves. *)
Theorem getClassesToRemove_enough (l : ClassList.t) (cs : list jsstring) :
  getClassesToRemove l cs = filter (has_class l) cs
  /\ (forall c, In c (getClassesToRemove l cs) <-> In c cs /\ In c l)
  /\ fold_left (fun acc cls => ClassList.remove cls acc)
       (getClassesToRemove l cs) l
     = fold_left (fun acc cls => ClassList.remove cls acc) cs l.
Proof.
  split; [|split].
  - unfold getClassesToRemove. apply filter_ext. intros c.
    unfold has_class, ClassList.contains.
    destruct (in_dec (list_eq_dec N.eq_dec) c l) as [H | H].
    + apply includes_In. exact H.
    + destruct (includes l c) eqn:E; auto.
      apply includes_In in E. contradiction.
  - intros c. unfold getClassesToRemove. rewrite filter_In.
    unfold ClassList.contains. rewrite includes_In. reflexivity.
  - apply remove_listed_only. auto.
Qed.

(** X22: every field [transformAndValidateFields] produces is consistent:
    its value is trimmed, [isEmpty] says whether the value is the empty
    string, [isValid] is its negation whether or not the field is required,
    and [required] says whether the name is in the list given. *)
Theorem transformed_fields_consistent
    (M : JsObject.t) (R : list jsstring) :
  Forall (fun f =>
            trim (value f) = value f
            /\ isEmpty f = is_empty (value f)
            /\ isValid f = negb (isEmpty f)
            /\ required f = includes R (name f))
         (transformAndValidateFields M R).
Proof.
  rewrite transformAndValidateFields_map. unfold JsObject.entries.
  apply Forall_forall. intros f Hf. apply in_map_iff in Hf.
  destruct Hf as ([k v] & <- & _). simpl.
  repeat split. apply trim_idempotent.
Qed.
